(** * HoloVitals: the Prisma schema merger ([merge-schemas.py])

    A shallow embedding of [extract_models], [extract_enums] and
    [merge_schemas], and the properties of the block scanner, of the
    registries and of the rendered output that follow from the code.

    Text is a list of 8-bit characters: Python [str] values restricted to
    the code points below 256.  Python integers are [Z].  A Python [dict]
    is an association list in insertion order with unique keys.  The one
    exception the scanner could raise, the [IndexError] of
    [line.strip().split()[1]], is a constructor of [result]. *)

From Stdlib Require Import String Ascii List ZArith Lia Bool Sorted Permutation.
Import ListNotations.

Local Open Scope Z_scope.

(** ** Text and the string methods the script uses *)

Definition str : Type := list ascii.

Definition lit (s : string) : str := list_ascii_of_string s.

Definition newline : ascii := "010"%char.
Definition lbrace : ascii := "{"%char.
Definition rbrace : ascii := "}"%char.

(** [str.isspace] on the code points below 256: TAB, LF, VT, FF, CR, the
    separators FS, GS, RS, US, the space, NEL and the no-break space. *)
Definition is_space (c : ascii) : bool :=
  let n := nat_of_ascii c in
  ((9 <=? n)%nat && (n <=? 13)%nat)
  || ((28 <=? n)%nat && (n <=? 32)%nat)
  || (n =? 133)%nat || (n =? 160)%nat.

Fixpoint str_eqb (a b : str) : bool :=
  match a, b with
  | [], [] => true
  | x :: a', y :: b' => Ascii.eqb x y && str_eqb a' b'
  | _, _ => false
  end.

(** [a < b] on characters is the order of the code points. *)
Definition ascii_ltb (a b : ascii) : bool :=
  (nat_of_ascii a <? nat_of_ascii b)%nat.

(** [a <= b] on Python strings: lexicographic on code points, a proper
    prefix first. *)
Fixpoint str_leb (a b : str) : bool :=
  match a, b with
  | [], _ => true
  | _ :: _, [] => false
  | x :: a', y :: b' =>
      if ascii_ltb x y then true
      else if ascii_ltb y x then false
      else str_leb a' b'
  end.

Definition str_ltb (a b : str) : bool := negb (str_leb b a).

(** [s.split('\n')]: never empty, one more piece than there are newlines. *)
Fixpoint split_nl (s : str) : list str :=
  match s with
  | [] => [[]]
  | c :: s' =>
      if Ascii.eqb c newline then [] :: split_nl s'
      else match split_nl s' with
           | l :: ls => (c :: l) :: ls
           | [] => [[c]]
           end
  end.

(** ['\n'.join(ls)] *)
Fixpoint join_nl (ls : list str) : str :=
  match ls with
  | [] => []
  | l :: ls' =>
      match ls' with
      | [] => l
      | _ :: _ => l ++ newline :: join_nl ls'
      end
  end.

Fixpoint lstrip (s : str) : str :=
  match s with
  | [] => []
  | c :: s' => if is_space c then lstrip s' else s
  end.

Definition rstrip (s : str) : str := rev (lstrip (rev s)).

(** [s.strip()] *)
Definition strip (s : str) : str := rstrip (lstrip s).

(** [s.startswith(p)] *)
Fixpoint startswith (s p : str) {struct p} : bool :=
  match p with
  | [] => true
  | c :: p' =>
      match s with
      | [] => false
      | d :: s' => Ascii.eqb d c && startswith s' p'
      end
  end.

(** [s.split()]: the maximal runs of characters that are not whitespace. *)
Fixpoint split_ws (s : str) : list str :=
  match s with
  | [] => []
  | c :: s' =>
      if is_space c then split_ws s'
      else match s' with
           | [] => [[c]]
           | d :: _ =>
               if is_space d then [c] :: split_ws s'
               else match split_ws s' with
                    | t :: ts => (c :: t) :: ts
                    | [] => [[c]]
                    end
           end
  end.

(** [s.count(c)] for a one-character [c] *)
Fixpoint count (c : ascii) (s : str) : Z :=
  match s with
  | [] => 0
  | d :: s' => (if Ascii.eqb d c then 1 else 0) + count c s'
  end.

(** [line.count('{') - line.count('}')] *)
Definition brace_delta (line : str) : Z := count lbrace line - count rbrace line.

(** ** Dictionaries *)

Definition dict : Type := list (str * str).

(** [d.get(k)] *)
Fixpoint dict_get (k : str) (d : dict) : option str :=
  match d with
  | [] => None
  | (k', v) :: d' => if str_eqb k k' then Some v else dict_get k d'
  end.

(** [k in d] *)
Definition dict_mem (k : str) (d : dict) : bool :=
  match dict_get k d with Some _ => true | None => false end.

(** [d[k] = v]: an existing key keeps its place and takes the new value, a
    new key goes to the end. *)
Fixpoint dict_set (k v : str) (d : dict) : dict :=
  match d with
  | [] => [(k, v)]
  | (k', v') :: d' =>
      if str_eqb k k' then (k', v) :: d' else (k', v') :: dict_set k v d'
  end.

(** [d.keys()] *)
Definition dict_keys (d : dict) : list str := map fst d.

(** ** Exceptions *)

Inductive result (A : Type) : Type :=
| Ok (a : A)
| IndexError.
Arguments Ok {A} a.
Arguments IndexError {A}.

Definition bind {A B : Type} (r : result A) (f : A -> result B) : result B :=
  match r with
  | Ok a => f a
  | IndexError => IndexError
  end.

(** A [for] loop over [xs] whose body may raise. *)
Fixpoint for_each {S X : Type} (body : S -> X -> result S) (st : S) (xs : list X)
  : result S :=
  match xs with
  | [] => Ok st
  | x :: xs' => bind (body st x) (fun st' => for_each body st' xs')
  end.

(** ** The block scanner: [extract_models] and [extract_enums] *)

(** The local variables of the two scanners.  In [extract_models] they are
    [models], [current_model], [current_content], [in_model] and
    [brace_count]; in [extract_enums] they are [enums], [current_enum],
    [current_content], [in_enum] and [brace_count]. *)
Record scanner : Type := Scanner {
  blocks : dict;
  current_name : option str;
  current_content : list str;
  in_block : bool;
  brace_count : Z
}.

Definition scanner_init : scanner :=
  {| blocks := []; current_name := None; current_content := [];
     in_block := false; brace_count := 0 |}.

(** [if current_model and current_content: models[current_model] = ...]:
    the name is truthy when it is a non-empty string, the content when it
    is a non-empty list. *)
Definition store_current (st : scanner) : dict :=
  match current_name st, current_content st with
  | Some (c :: n), _ :: _ =>
      dict_set (c :: n) (join_nl (current_content st)) (blocks st)
  | _, _ => blocks st
  end.

(** [models[current_model] = '\n'.join(current_content)] in the branch
    guarded by [in_model]; the name is never [None] there
    (see [scan_invariant]). *)
Definition store_closed (st : scanner) (content : list str) : dict :=
  match current_name st with
  | Some n => dict_set n (join_nl content) (blocks st)
  | None => blocks st
  end.

(** The body of the loop of [extract_models]. *)
Definition models_step (st : scanner) (line : str) : result scanner :=
  if startswith (strip line) (lit "model ") then
    let models := store_current st in
    match nth_error (split_ws (strip line)) 1 with
    | None => IndexError
    | Some name =>
        Ok {| blocks := models;
              current_name := Some name;
              current_content := [line];
              in_block := true;
              brace_count := count lbrace line - count rbrace line |}
    end
  else if in_block st then
    let content := current_content st ++ [line] in
    let depth := brace_count st + (count lbrace line - count rbrace line) in
    if depth =? 0 then
      Ok {| blocks := store_closed st content;
            current_name := None;
            current_content := [];
            in_block := false;
            brace_count := depth |}
    else
      Ok {| blocks := blocks st;
            current_name := current_name st;
            current_content := content;
            in_block := true;
            brace_count := depth |}
  else Ok st.

Definition extract_models (schema_content : str) : result dict :=
  bind (for_each models_step scanner_init (split_nl schema_content))
       (fun st => Ok (store_current st)).

(** The body of the loop of [extract_enums]. *)
Definition enums_step (st : scanner) (line : str) : result scanner :=
  if startswith (strip line) (lit "enum ") then
    let enums := store_current st in
    match nth_error (split_ws (strip line)) 1 with
    | None => IndexError
    | Some name =>
        Ok {| blocks := enums;
              current_name := Some name;
              current_content := [line];
              in_block := true;
              brace_count := count lbrace line - count rbrace line |}
    end
  else if in_block st then
    let content := current_content st ++ [line] in
    let depth := brace_count st + (count lbrace line - count rbrace line) in
    if depth =? 0 then
      Ok {| blocks := store_closed st content;
            current_name := None;
            current_content := [];
            in_block := false;
            brace_count := depth |}
    else
      Ok {| blocks := blocks st;
            current_name := current_name st;
            current_content := content;
            in_block := true;
            brace_count := depth |}
  else Ok st.

Definition extract_enums (schema_content : str) : result dict :=
  bind (for_each enums_step scanner_init (split_nl schema_content))
       (fun st => Ok (store_current st)).

(** The scanner with its keyword as a parameter: [extract_models] with
    ['model '] replaced by [kw]. *)
Definition block_step (kw : str) (st : scanner) (line : str) : result scanner :=
  if startswith (strip line) kw then
    match nth_error (split_ws (strip line)) 1 with
    | None => IndexError
    | Some name =>
        Ok {| blocks := store_current st;
              current_name := Some name;
              current_content := [line];
              in_block := true;
              brace_count := brace_delta line |}
    end
  else if in_block st then
    let content := current_content st ++ [line] in
    let depth := brace_count st + brace_delta line in
    if depth =? 0 then
      Ok {| blocks := store_closed st content;
            current_name := None;
            current_content := [];
            in_block := false;
            brace_count := depth |}
    else
      Ok {| blocks := blocks st;
            current_name := current_name st;
            current_content := content;
            in_block := true;
            brace_count := depth |}
  else Ok st.

Definition scan (kw : str) (lines : list str) : result scanner :=
  for_each (block_step kw) scanner_init lines.

Definition extract_blocks (kw : str) (schema_content : str) : result dict :=
  bind (scan kw (split_nl schema_content)) (fun st => Ok (store_current st)).

(** The two kinds of block and their keywords. *)
Inductive kind : Type := Model | Enum.

Definition keyword (k : kind) : str :=
  match k with
  | Model => lit "model "
  | Enum => lit "enum "
  end.

Definition extract (k : kind) : str -> result dict :=
  match k with
  | Model => extract_models
  | Enum => extract_enums
  end.

(** [line.strip().startswith('model ')], [line.strip().startswith('enum ')] *)
Definition opens (kw : str) (line : str) : bool := startswith (strip line) kw.

(** [line.strip().split()[1]] *)
Definition block_name (line : str) : option str :=
  nth_error (split_ws (strip line)) 1.

(** The sum of the brace deltas of some lines: the value of [brace_count]
    after they have been accumulated. *)
Fixpoint depth_of (lines : list str) : Z :=
  match lines with
  | [] => 0
  | l :: ls => brace_delta l + depth_of ls
  end.

(** ** The merge: [merge_schemas] *)

(** What the script prints.  [FileSummary] stands for the line that the
    script starts with [path.name], the last component of the path it
    carries. *)
Inductive message : Type :=
| MainSummary (models enums : nat)
| NotFound (schema_path : str)
| FileSummary (schema_path : str) (models enums : nat)
| Added (k : kind) (name : str)
| Skipped (k : kind) (name : str)
| Written
| Total (models enums : nat).

(** [sorted(names)]: Python's sort is stable and ascending; insertion from
    the right keeps equal elements in their order. *)
Fixpoint insert_sorted (x : str) (xs : list str) : list str :=
  match xs with
  | [] => [x]
  | y :: ys => if str_leb x y then x :: xs else y :: insert_sorted x ys
  end.

Fixpoint sorted (xs : list str) : list str :=
  match xs with
  | [] => []
  | x :: xs' => insert_sorted x (sorted xs')
  end.

(** [d[k]] for a key taken from [d.keys()]. *)
Definition dict_item (d : dict) (k : str) : str :=
  match dict_get k d with
  | Some v => v
  | None => []
  end.

(** The header loop: the lines before the first one that starts a model
    or an enum. *)
Fixpoint header_lines (lines : list str) : list str :=
  match lines with
  | [] => []
  | line :: rest =>
      if startswith (strip line) (lit "model ")
         || startswith (strip line) (lit "enum ")
      then []
      else line :: header_lines rest
  end.

(** [for model_name, model_content in models.items(): ...], and the same
    loop over the enums: a name not yet in the registry is added, a name
    already there is skipped. *)
Fixpoint add_blocks (k : kind) (items : dict) (registry : dict)
  : dict * list message :=
  match items with
  | [] => (registry, [])
  | (name, content) :: rest =>
      if negb (dict_mem name registry) then
        let '(registry', log) := add_blocks k rest (dict_set name content registry) in
        (registry', Added k name :: log)
      else
        let '(registry', log) := add_blocks k rest registry in
        (registry', Skipped k name :: log)
  end.

Record merge_state : Type := MergeState {
  all_models : dict;
  all_enums : dict;
  printed : list message
}.

(** One round of the loop over [additional_schemas]; [file] is [None] when
    the path does not exist. *)
Definition merge_file (ms : merge_state) (entry : str * option str)
  : result merge_state :=
  let '(schema_path, file) := entry in
  match file with
  | None =>
      Ok {| all_models := all_models ms; all_enums := all_enums ms;
            printed := printed ms ++ [NotFound schema_path] |}
  | Some content =>
      bind (extract_models content) (fun models =>
      bind (extract_enums content) (fun enums =>
        let '(all_models', log_m) := add_blocks Model models (all_models ms) in
        let '(all_enums', log_e) := add_blocks Enum enums (all_enums ms) in
        Ok {| all_models := all_models';
              all_enums := all_enums';
              printed := printed ms
                ++ FileSummary schema_path (length models) (length enums)
                   :: log_m ++ log_e |}))
  end.

Definition rule : string :=
  "// ============================================================================".

(** The list [consolidated]. *)
Definition consolidate (header : str) (enums models : dict) : list str :=
  [header; newline :: lit rule; lit "// ENUMS"; lit rule ++ [newline]]
  ++ flat_map (fun name => [dict_item enums name; []]) (sorted (dict_keys enums))
  ++ [newline :: lit rule; lit "// MODELS"; lit rule ++ [newline]]
  ++ flat_map (fun name => [dict_item models name; []]) (sorted (dict_keys models)).

Record merged : Type := Merged {
  header : str;
  models_out : dict;
  enums_out : dict;
  written : str;
  report : list message
}.

(** [merge_schemas], with the files it reads as arguments: the text of the
    main schema, and for each additional path its text, or [None] when the
    path does not exist.  [written] is the text written to the output
    file. *)
Definition merge_schemas (main_content : str)
    (additional_schemas : list (str * option str)) : result merged :=
  let header := join_nl (header_lines (split_nl main_content)) in
  bind (extract_models main_content) (fun models0 =>
  bind (extract_enums main_content) (fun enums0 =>
  bind (for_each merge_file
          {| all_models := models0; all_enums := enums0;
             printed := [MainSummary (length models0) (length enums0)] |}
          additional_schemas) (fun ms =>
    Ok {| header := header;
          models_out := all_models ms;
          enums_out := all_enums ms;
          written := join_nl (consolidate header (all_enums ms) (all_models ms));
          report := printed ms
            ++ [Written; Total (length (all_models ms)) (length (all_enums ms))] |}))).

Definition registry (k : kind) (m : merged) : dict :=
  match k with
  | Model => models_out m
  | Enum => enums_out m
  end.

(** The loop body and the loop of the scanner of each kind. *)
Definition step (k : kind) : scanner -> str -> result scanner :=
  match k with
  | Model => models_step
  | Enum => enums_step
  end.

Definition run (k : kind) (lines : list str) : result scanner :=
  for_each (step k) scanner_init lines.

(** A keyword is a word without whitespace followed by one space. *)
Definition keyword_ok (kw : str) : Prop :=
  exists w, kw = w ++ [" "%char] /\ w <> [] /\ Forall (fun c => is_space c = false) w.

(** ** The invariant of the loop *)

(** After the lines [ls], a block is open: it was started by the line [o],
    the last opening line of [ls], and [mid] are the lines since. *)
Record open_at (kw : str) (ls : list str) (st : scanner) (o : str) (mid : list str)
    (n : str) : Prop := OpenAt {
  oa_lines : exists pre, ls = pre ++ o :: mid;
  oa_opens : opens kw o = true;
  oa_mid : Forall (fun l => opens kw l = false) mid;
  oa_name : block_name o = Some n;
  oa_nonempty : n <> [];
  oa_current : current_name st = Some n;
  oa_content : current_content st = o :: mid;
  oa_count : brace_count st = depth_of (o :: mid);
  oa_running : forall j, (1 <= j <= length mid)%nat ->
                         depth_of (o :: firstn j mid) <> 0
}.

Definition scan_inv (kw : str) (ls : list str) (st : scanner) : Prop :=
  if in_block st
  then exists o mid n, open_at kw ls st o mid n
  else current_name st = None /\ current_content st = [].

(** ** Vocabulary of the statements *)

(** The registry of a kind during the merge. *)
Definition registry_of (k : kind) (ms : merge_state) : dict :=
  match k with
  | Model => all_models ms
  | Enum => all_enums ms
  end.

(** The messages that start the part of the report of one additional
    file. *)
Definition is_file_line (m : message) : bool :=
  match m with
  | NotFound _ | FileSummary _ _ _ => true
  | _ => false
  end.

(** The texts of the additional files that exist, in order. *)
Definition present (additional_schemas : list (str * option str)) : list str :=
  flat_map (fun entry => match snd entry with
                         | Some content => [content]
                         | None => []
                         end) additional_schemas.

(** What the first of the documents [docs] that has a block named [n]
    has under that name. *)
Fixpoint first_definition (k : kind) (n : str) (docs : list str) : option str :=
  match docs with
  | [] => None
  | doc :: docs' =>
      match extract k doc with
      | Ok d =>
          match dict_get n d with
          | Some v => Some v
          | None => first_definition k n docs'
          end
      | IndexError => None
      end
  end.

(** The strict lexicographic order on code points: a proper prefix comes
    first, otherwise the first differing character decides. *)
Inductive lex_lt : str -> str -> Prop :=
| lex_lt_nil (c : ascii) (b : str) : lex_lt [] (c :: b)
| lex_lt_head (x y : ascii) (a b : str) :
    (nat_of_ascii x < nat_of_ascii y)%nat -> lex_lt (x :: a) (y :: b)
| lex_lt_tail (x : ascii) (a b : str) :
    lex_lt a b -> lex_lt (x :: a) (x :: b).

(** The lines that [consolidated] puts between the header and the first
    enum. *)
Definition enums_banner : list str :=
  [[]; lit rule; lit "// ENUMS"; lit rule; []].

(** A line that stops the header loop. *)
Definition starts_block (line : str) : bool :=
  opens (keyword Model) line || opens (keyword Enum) line.

(** A line has no newline in it. *)
Definition no_nl (line : str) : Prop := ~ In newline line.

(** Among the lines [ls], the text [v] is a run of lines that starts at a
    line opening a block named [n] and has no other opening line. *)
Definition block_of (kw : str) (ls : list str) (n v : str) : Prop :=
  exists pre o mid post,
    ls = pre ++ o :: mid ++ post
    /\ opens kw o = true
    /\ block_name o = Some n
    /\ Forall (fun l => opens kw l = false) mid
    /\ v = join_nl (o :: mid).

Definition kind_eqb (k k' : kind) : bool :=
  match k, k' with
  | Model, Model | Enum, Enum => true
  | _, _ => false
  end.

(** The messages [+ Added model: ...] (or [enum]) and
    [- Skipped duplicate model: ...]. *)
Definition is_added (k : kind) (m : message) : bool :=
  match m with
  | Added k' _ => kind_eqb k k'
  | _ => false
  end.

Definition is_skipped (k : kind) (m : message) : bool :=
  match m with
  | Skipped k' _ => kind_eqb k k'
  | _ => false
  end.

(** The number of blocks of a kind that the scans of the additional files
    return, file by file. *)
Definition found (k : kind) (additional_schemas : list (str * option str)) : nat :=
  list_sum (map (fun content => match extract k content with
                                | Ok d => length d
                                | IndexError => 0%nat
                                end)
                (present additional_schemas)).

(** Two states of the scanner that differ only in what was stored before:
    the first has, under each name, what the second has, or else what
    [before] has. *)
Definition stored_over (before : dict) (s1 s2 : scanner) : Prop :=
  current_name s1 = current_name s2
  /\ current_content s1 = current_content s2
  /\ in_block s1 = in_block s2
  /\ (in_block s1 = true -> brace_count s1 = brace_count s2)
  /\ forall n, dict_get n (blocks s1)
               = match dict_get n (blocks s2) with
                 | Some v => Some v
                 | None => dict_get n before
                 end.

(** The scanner outside a block, with [b] stored. *)
Definition idle (b : dict) : scanner :=
  {| blocks := b; current_name := None; current_content := [];
     in_block := false; brace_count := 0 |}.

(** The lines after the opening line of a block that is closed by its
    last line: none of them starts a model or an enum, and the depth,
    [depth] before them, is zero after the last one and after no other. *)
Fixpoint closes_at_end (depth : Z) (lines : list str) : bool :=
  match lines with
  | [] => false
  | l :: ls =>
      negb (starts_block l)
      && match ls with
         | [] => depth + brace_delta l =? 0
         | _ :: _ =>
             negb (depth + brace_delta l =? 0)
             && closes_at_end (depth + brace_delta l) ls
         end
  end.

(** The text [v] is a block of the kind [k] named [n] that the scanner
    reads from its first line to its last and closes there. *)
Definition well_formed_block (k : kind) (n v : str) : bool :=
  match split_nl v with
  | o :: rest =>
      opens (keyword k) o
      && match block_name o with
         | Some n' => str_eqb n' n
         | None => false
         end
      && closes_at_end (brace_delta o) rest
  | [] => false
  end.

Definition well_formed (k : kind) (d : dict) : bool :=
  forallb (fun e => well_formed_block k (fst e) (snd e)) d.

(** The lines of a section of the text written. *)
Definition section_lines (d : dict) (names : list str) : list str :=
  flat_map (fun name => split_nl (dict_item d name) ++ [[]]) names.

Definition models_banner : list str :=
  [[]; lit rule; lit "// MODELS"; lit rule; []].

(** * Properties *)

(** ** Strings *)

Lemma str_eqb_eq (a b : str) : str_eqb a b = true <-> a = b.
Proof.
  revert b; induction a as [|x a IH]; intros [|y b]; simpl; split;
    try congruence; try reflexivity.
  - intros H. apply andb_true_iff in H as [Hx Hab].
    apply Ascii.eqb_eq in Hx. apply IH in Hab. congruence.
  - intros H. injection H as -> ->. rewrite Ascii.eqb_refl. simpl. now apply IH.
Qed.

Lemma str_eqb_refl (a : str) : str_eqb a a = true.
Proof. now apply str_eqb_eq. Qed.

Lemma str_eqb_neq (a b : str) : str_eqb a b = false <-> a <> b.
Proof.
  split.
  - intros H E. apply str_eqb_eq in E. congruence.
  - intros H. destruct (str_eqb a b) eqn:E; [|reflexivity].
    apply str_eqb_eq in E. contradiction.
Qed.

Lemma startswith_app (s p : str) :
  startswith s p = true <-> exists r, s = p ++ r.
Proof.
  revert s; induction p as [|c p IH]; intros s; simpl.
  - split; [intros _; now exists s | intros _; reflexivity].
  - destruct s as [|d s].
    + split; [discriminate | intros [r Hr]; discriminate].
    + split.
      * intros H. apply andb_true_iff in H as [Hd Hs].
        apply Ascii.eqb_eq in Hd. apply IH in Hs as [r ->]. subst. now exists r.
      * intros [r Hr]. injection Hr as -> ->. rewrite Ascii.eqb_refl. simpl.
        apply IH. now exists r.
Qed.

Lemma lstrip_head (s : str) :
  lstrip s = [] \/ exists c r, lstrip s = c :: r /\ is_space c = false.
Proof.
  induction s as [|c s IH]; simpl; [now left|].
  destruct (is_space c) eqn:E; [exact IH|]. right. now exists c, s.
Qed.

Lemma strip_last (s : str) :
  strip s = [] \/ exists r c, strip s = r ++ [c] /\ is_space c = false.
Proof.
  unfold strip, rstrip.
  destruct (lstrip_head (rev (lstrip s))) as [E | (c & r & E & Hc)]; rewrite E.
  - now left.
  - right. exists (rev r), c. simpl. now split.
Qed.

Lemma split_ws_space (c : ascii) (s : str) :
  is_space c = true -> split_ws (c :: s) = split_ws s.
Proof. intros H. simpl. now rewrite H. Qed.

Lemma split_ws_word (w : str) (d : ascii) (r : str) :
  w <> [] -> Forall (fun c => is_space c = false) w -> is_space d = true ->
  split_ws (w ++ d :: r) = w :: split_ws r.
Proof.
  intros Hw Hns Hd. induction w as [|c w IH]; [contradiction|].
  inversion Hns as [|? ? Hc Hns']; subst.
  destruct w as [|c' w].
  - change (split_ws ([c] ++ d :: r)) with (split_ws (c :: d :: r)).
    cbn [split_ws]. rewrite Hc, Hd. reflexivity.
  - assert (Hc' : is_space c' = false) by now inversion Hns'.
    change ((c :: c' :: w) ++ d :: r) with (c :: ((c' :: w) ++ d :: r)).
    cbn [split_ws]. rewrite Hc.
    change ((c' :: w) ++ d :: r) with (c' :: (w ++ d :: r)) at 1.
    cbv iota. rewrite Hc'.
    change (c' :: w ++ d :: r) with ((c' :: w) ++ d :: r).
    rewrite IH by (discriminate || assumption). reflexivity.
Qed.

Lemma split_ws_tokens (s : str) : Forall (fun t => t <> []) (split_ws s).
Proof.
  induction s as [|c s IH]; simpl; [constructor|].
  destruct (is_space c); [exact IH|].
  destruct s as [|d s']; [repeat constructor; discriminate|].
  destruct (is_space d).
  - constructor; [discriminate | exact IH].
  - destruct (split_ws (d :: s')) as [|t ts].
    + repeat constructor; discriminate.
    + inversion IH; subst. constructor; [discriminate | assumption].
Qed.

Lemma split_ws_some (s : str) (c : ascii) :
  In c s -> is_space c = false -> split_ws s <> [].
Proof.
  induction s as [|a s IH]; [contradiction|].
  intros Hin Hc. cbn [split_ws].
  destruct (is_space a) eqn:Ha.
  - destruct Hin as [-> | Hin]; [congruence | now apply IH].
  - destruct s as [|d s']; [discriminate|].
    destruct (is_space d); [discriminate|].
    destruct (split_ws (d :: s')); discriminate.
Qed.

(** A line that starts a block always has a second token: the stripped
    line starts with the keyword, whose last character is a space, and
    ends with a character that is not whitespace. *)
Lemma opens_block_name (kw line : str) :
  keyword_ok kw -> opens kw line = true ->
  exists n, block_name line = Some n /\ n <> [].
Proof.
  intros (w & -> & Hw & Hns) Ho. unfold opens in Ho. unfold block_name.
  apply startswith_app in Ho as [r Hr].
  rewrite <- app_assoc in Hr. simpl in Hr.
  assert (Hsp : is_space " "%char = true) by reflexivity.
  assert (Hr' : exists c, In c r /\ is_space c = false).
  { destruct (strip_last line) as [E | (x & c & E & Hc)].
    - rewrite E in Hr. destruct w; discriminate.
    - rewrite E in Hr. destruct r as [|a r] using rev_ind.
      + change (w ++ [" "%char]) with (w ++ [" "%char]) in Hr.
        apply app_inj_tail in Hr as [_ ->]. congruence.
      + clear IHr. change (w ++ " "%char :: r ++ [a])
          with (w ++ (" "%char :: r) ++ [a]) in Hr.
        rewrite app_assoc in Hr. apply app_inj_tail in Hr as [_ ->].
        exists a. split; [apply in_or_app; right; now left | assumption]. }
  destruct Hr' as (c & Hin & Hc).
  rewrite Hr, split_ws_word by assumption.
  pose proof (split_ws_tokens r) as Ht.
  pose proof (split_ws_some r c Hin Hc) as Hne.
  destruct (split_ws r) as [|t ts]; [contradiction|].
  exists t. split; [reflexivity | now inversion Ht].
Qed.

Lemma keyword_ok_kind (k : kind) : keyword_ok (keyword k).
Proof.
  destruct k.
  - exists (lit "model"). split; [reflexivity|]. split; [discriminate|].
    repeat constructor.
  - exists (lit "enum"). split; [reflexivity|]. split; [discriminate|].
    repeat constructor.
Qed.

(** ** Loops *)

Lemma for_each_app {S X : Type} (body : S -> X -> result S) (st : S)
    (xs ys : list X) :
  for_each body st (xs ++ ys)
  = bind (for_each body st xs) (fun st' => for_each body st' ys).
Proof.
  revert st; induction xs as [|x xs IH]; intros st; simpl; [reflexivity|].
  destruct (body st x) as [st'|]; simpl; [apply IH | reflexivity].
Qed.

Lemma for_each_snoc {S X : Type} (body : S -> X -> result S) (st : S)
    (xs : list X) (x : X) :
  for_each body st (xs ++ [x])
  = bind (for_each body st xs) (fun st' => body st' x).
Proof.
  rewrite for_each_app. destruct (for_each body st xs) as [st'|]; simpl;
    [|reflexivity].
  now destruct (body st' x).
Qed.

Lemma for_each_ext {S X : Type} (f g : S -> X -> result S) :
  (forall st x, f st x = g st x) ->
  forall xs st, for_each f st xs = for_each g st xs.
Proof.
  intros H xs; induction xs as [|x xs IH]; intros st; simpl; [reflexivity|].
  rewrite H. destruct (g st x); simpl; [apply IH | reflexivity].
Qed.

(** ** The two scanners are the scanner of their keyword *)

Lemma step_block_step (k : kind) (st : scanner) (line : str) :
  step k st line = block_step (keyword k) st line.
Proof. destruct k; reflexivity. Qed.

Lemma run_scan (k : kind) (lines : list str) :
  run k lines = scan (keyword k) lines.
Proof. apply for_each_ext. apply step_block_step. Qed.

Lemma extract_extract_blocks (k : kind) (content : str) :
  extract k content = extract_blocks (keyword k) content.
Proof.
  unfold extract_blocks. rewrite <- run_scan. destruct k; reflexivity.
Qed.

(** ** Brace counting *)

Lemma count_app (c : ascii) (a b : str) :
  count c (a ++ b) = count c a + count c b.
Proof. induction a as [|d a IH]; simpl; [reflexivity | rewrite IH; lia]. Qed.

Lemma depth_of_app (a b : list str) :
  depth_of (a ++ b) = depth_of a + depth_of b.
Proof. induction a as [|l a IH]; simpl; [reflexivity | rewrite IH; lia]. Qed.

Lemma depth_of_join (ls : list str) :
  count lbrace (join_nl ls) - count rbrace (join_nl ls) = depth_of ls.
Proof.
  induction ls as [|l ls IH]; [reflexivity|].
  destruct ls as [|l' ls].
  - simpl. unfold brace_delta. lia.
  - change (join_nl (l :: l' :: ls)) with (l ++ newline :: join_nl (l' :: ls)).
    rewrite !count_app.
    change (count lbrace (newline :: join_nl (l' :: ls)))
      with (0 + count lbrace (join_nl (l' :: ls))).
    change (count rbrace (newline :: join_nl (l' :: ls)))
      with (0 + count rbrace (join_nl (l' :: ls))).
    change (depth_of (l :: l' :: ls)) with (brace_delta l + depth_of (l' :: ls)).
    unfold brace_delta. lia.
Qed.

(** ** The three cases of the loop body *)

Section Scanner.

Variable kw : str.
Hypothesis kw_ok : keyword_ok kw.

Lemma step_open (st : scanner) (line : str) :
  opens kw line = true ->
  exists n, block_name line = Some n /\ n <> [] /\
    block_step kw st line
    = Ok {| blocks := store_current st; current_name := Some n;
            current_content := [line]; in_block := true;
            brace_count := brace_delta line |}.
Proof.
  intros Ho. destruct (opens_block_name kw line kw_ok Ho) as (n & Hn & Hne).
  exists n. repeat split; try assumption.
  unfold block_step. unfold opens in Ho. unfold block_name in Hn.
  now rewrite Ho, Hn.
Qed.

Lemma step_inside (st : scanner) (line : str) :
  opens kw line = false -> in_block st = true ->
  block_step kw st line
  = Ok (if brace_count st + brace_delta line =? 0
        then {| blocks := store_closed st (current_content st ++ [line]);
                current_name := None; current_content := [];
                in_block := false;
                brace_count := brace_count st + brace_delta line |}
        else {| blocks := blocks st; current_name := current_name st;
                current_content := current_content st ++ [line];
                in_block := true;
                brace_count := brace_count st + brace_delta line |}).
Proof.
  intros Ho Hin. unfold block_step. unfold opens in Ho. rewrite Ho, Hin.
  now destruct (brace_count st + brace_delta line =? 0).
Qed.

Lemma step_outside (st : scanner) (line : str) :
  opens kw line = false -> in_block st = false ->
  block_step kw st line = Ok st.
Proof.
  intros Ho Hin. unfold block_step. unfold opens in Ho. now rewrite Ho, Hin.
Qed.

Lemma scan_snoc (ls : list str) (l : str) :
  scan kw (ls ++ [l]) = bind (scan kw ls) (fun st => block_step kw st l).
Proof. apply for_each_snoc. Qed.

Lemma scan_invariant (ls : list str) :
  exists st, scan kw ls = Ok st /\ scan_inv kw ls st.
Proof.
  induction ls as [|l ls IH] using rev_ind.
  - exists scanner_init. split; [reflexivity|]. now split.
  - destruct IH as (st & Hst & Hinv). rewrite scan_snoc, Hst. simpl.
    destruct (opens kw l) eqn:Ho.
    + destruct (step_open st l Ho) as (n & Hn & Hne & ->).
      eexists. split; [reflexivity|]. unfold scan_inv. simpl.
      exists l, [], n. constructor; simpl; try easy.
      * now exists ls.
      * lia.
      * intros j Hj. lia.
    + destruct (in_block st) eqn:Hin.
      * rewrite step_inside by assumption.
        eexists. split; [reflexivity|].
        unfold scan_inv in Hinv. rewrite Hin in Hinv.
        destruct Hinv as (o & mid & n & [[pre Hpre] Hoo Hmid Hname Hne Hcur Hcont Hcnt Hrun]).
        assert (Hd : brace_count st + brace_delta l = depth_of (o :: mid ++ [l])).
        { rewrite Hcnt. change (o :: mid ++ [l]) with ((o :: mid) ++ [l]).
          rewrite depth_of_app. simpl. lia. }
        destruct (brace_count st + brace_delta l =? 0) eqn:Hz.
        -- unfold scan_inv. simpl. now split.
        -- unfold scan_inv. simpl. exists o, (mid ++ [l]), n.
           constructor;
             cbn [current_name current_content brace_count]; try assumption.
           ++ exists pre. rewrite Hpre, <- app_assoc. reflexivity.
           ++ apply Forall_app. split; [assumption | now repeat constructor].
           ++ now rewrite Hcont.
           ++ intros j Hj. rewrite length_app in Hj. cbn [length] in Hj.
              destruct (Nat.eq_dec j (length mid + 1)) as [-> | Hne'].
              ** rewrite firstn_all2 by (rewrite length_app; simpl; lia).
                 rewrite <- Hd. now apply Z.eqb_neq.
              ** rewrite firstn_app.
                 replace (j - length mid)%nat with 0%nat by lia.
                 simpl. rewrite app_nil_r. apply Hrun. lia.
      * rewrite step_outside by assumption.
        exists st. split; [reflexivity|].
        unfold scan_inv in *. now rewrite Hin in *.
Qed.

End Scanner.

(** ** Dictionaries *)

Lemma dict_get_set_same (k v : str) (d : dict) :
  dict_get k (dict_set k v d) = Some v.
Proof.
  induction d as [|[k' v'] d IH]; simpl.
  - now rewrite str_eqb_refl.
  - destruct (str_eqb k k') eqn:E; simpl; rewrite E; [reflexivity | exact IH].
Qed.

Lemma dict_get_set_other (k k' v : str) (d : dict) :
  k <> k' -> dict_get k (dict_set k' v d) = dict_get k d.
Proof.
  intros Hne. induction d as [|[k2 v2] d IH]; simpl.
  - apply str_eqb_neq in Hne. now rewrite Hne.
  - destruct (str_eqb k' k2) eqn:E; simpl.
    + apply str_eqb_eq in E. subst k2.
      apply str_eqb_neq in Hne. now rewrite Hne.
    + now rewrite IH.
Qed.

Lemma dict_mem_keys (k : str) (d : dict) :
  dict_mem k d = true <-> In k (dict_keys d).
Proof.
  unfold dict_mem. induction d as [|[k' v'] d IH]; simpl.
  - split; [discriminate | contradiction].
  - destruct (str_eqb k k') eqn:E.
    + apply str_eqb_eq in E. subst. split; [now left | reflexivity].
    + apply str_eqb_neq in E. rewrite IH. split; [now right|].
      intros [H | H]; [congruence | assumption].
Qed.

Lemma dict_get_keys (k : str) (d : dict) :
  In k (dict_keys d) -> exists v, dict_get k d = Some v.
Proof.
  intros H. apply dict_mem_keys in H. unfold dict_mem in H.
  destruct (dict_get k d) as [v|]; [now exists v | discriminate].
Qed.

Lemma dict_keys_set (k v : str) (d : dict) :
  dict_keys (dict_set k v d)
  = if dict_mem k d then dict_keys d else dict_keys d ++ [k].
Proof.
  unfold dict_mem. induction d as [|[k' v'] d IH]; simpl; [reflexivity|].
  destruct (str_eqb k k') eqn:E; simpl; [reflexivity|].
  rewrite IH. now destruct (dict_get k d).
Qed.

Lemma dict_set_NoDup (k v : str) (d : dict) :
  NoDup (dict_keys d) -> NoDup (dict_keys (dict_set k v d)).
Proof.
  intros H. rewrite dict_keys_set. destruct (dict_mem k d) eqn:E; [assumption|].
  apply NoDup_app; [assumption | repeat constructor; intros [] |].
  intros x Hx [<- | []]. apply dict_mem_keys in Hx. congruence.
Qed.

Lemma store_current_open (st : scanner) (n : str) (lines : list str) :
  current_name st = Some n -> n <> [] ->
  current_content st = lines -> lines <> [] ->
  store_current st = dict_set n (join_nl lines) (blocks st).
Proof.
  intros Hn Hne Hc Hl. unfold store_current. rewrite Hn, Hc.
  destruct n; [contradiction|]. destruct lines; [contradiction|]. reflexivity.
Qed.

Lemma store_current_NoDup (st : scanner) :
  NoDup (dict_keys (blocks st)) -> NoDup (dict_keys (store_current st)).
Proof.
  intros H. unfold store_current.
  destruct (current_name st) as [[|c n]|]; try assumption.
  destruct (current_content st); [assumption|]. now apply dict_set_NoDup.
Qed.

Lemma block_step_NoDup (kw : str) (st st' : scanner) (line : str) :
  block_step kw st line = Ok st' ->
  NoDup (dict_keys (blocks st)) -> NoDup (dict_keys (blocks st')).
Proof.
  unfold block_step. intros H Hnd.
  destruct (startswith (strip line) kw).
  - destruct (nth_error (split_ws (strip line)) 1); [|discriminate].
    injection H as <-. simpl. now apply store_current_NoDup.
  - destruct (in_block st); [|now injection H as <-].
    destruct (brace_count st + brace_delta line =? 0); injection H as <-; simpl;
      [|assumption].
    unfold store_closed. destruct (current_name st); [|assumption].
    now apply dict_set_NoDup.
Qed.

Lemma for_each_block_step_NoDup (kw : str) (lines : list str)
    (st st' : scanner) :
  for_each (block_step kw) st lines = Ok st' ->
  NoDup (dict_keys (blocks st)) -> NoDup (dict_keys (blocks st')).
Proof.
  revert st; induction lines as [|l lines IH]; intros st H Hnd; simpl in H.
  - now injection H as <-.
  - destruct (block_step kw st l) as [st1|] eqn:E; [|discriminate].
    simpl in H. apply (IH st1 H). eapply block_step_NoDup; eassumption.
Qed.

(** The scanner of a well-formed keyword returns, and its result has no
    name twice. *)
Lemma extract_blocks_total (kw : str) (content : str) :
  keyword_ok kw ->
  exists d, extract_blocks kw content = Ok d /\ NoDup (dict_keys d).
Proof.
  intros Hkw. unfold extract_blocks.
  destruct (scan_invariant kw Hkw (split_nl content)) as (st & Hst & _).
  rewrite Hst. simpl. eexists. split; [reflexivity|].
  apply store_current_NoDup.
  eapply for_each_block_step_NoDup; [exact Hst | constructor].
Qed.

Lemma extract_total (k : kind) (content : str) :
  exists d, extract k content = Ok d /\ NoDup (dict_keys d).
Proof.
  rewrite extract_extract_blocks. apply extract_blocks_total.
  apply keyword_ok_kind.
Qed.

(** ** A block that stays open *)

(** From a state in which a block is open, lines that start no block and
    never bring the depth to zero are all accumulated. *)
Lemma scan_stays_open (kw : str) (rest : list str) :
  forall st n,
  in_block st = true -> current_name st = Some n ->
  Forall (fun l => opens kw l = false) rest ->
  (forall j, (1 <= j <= length rest)%nat ->
             brace_count st + depth_of (firstn j rest) <> 0) ->
  for_each (block_step kw) st rest
  = Ok {| blocks := blocks st; current_name := Some n;
          current_content := current_content st ++ rest;
          in_block := true;
          brace_count := brace_count st + depth_of rest |}.
Proof.
  induction rest as [|l rest IH]; intros st n Hin Hn Hno Hrun.
  - simpl. rewrite app_nil_r, Z.add_0_r. destruct st; simpl in *. congruence.
  - inversion Hno as [|? ? Hl Hrest]; subst.
    cbn [for_each]. rewrite step_inside by assumption.
    assert (H1 : brace_count st + brace_delta l <> 0).
    { specialize (Hrun 1%nat). cbn [length firstn depth_of] in Hrun.
      rewrite Z.add_0_r in Hrun. apply Hrun. lia. }
    apply Z.eqb_neq in H1. rewrite H1. cbn [bind].
    rewrite (IH _ n); cbn [in_block current_name brace_count blocks current_content];
      try assumption; try reflexivity.
    + rewrite <- app_assoc. cbn [depth_of app]. now rewrite Z.add_assoc.
    + intros j Hj. specialize (Hrun (S j)).
      cbn [length firstn depth_of] in Hrun. rewrite Z.add_assoc in Hrun.
      apply Hrun. lia.
Qed.

(** ** The scanner: what is emitted, and when *)

(** C8 fails as stated: the line [model {] starts a block although no
    identifier follows the keyword, and the scan returns a block named
    [{] instead of failing. *)
Lemma braces_taken_as_name :
  opens (keyword Model) (lit "model {") = true
  /\ block_name (lit "model {") = Some (lit "{")
  /\ extract Model (lit "model {") = Ok [(lit "{", lit "model {")]
  /\ extract Model (lit "model {") <> IndexError.
Proof. repeat split; try reflexivity. discriminate. Qed.

(** C10.  [extract_enums] is [extract_models] with the keyword ['model ']
    replaced by ['enum ']: both are the one scanner [extract_blocks], at
    their keywords, on every text. *)
Theorem extract_enums_is_extract_models_at_enum (content : str) :
  extract_models content = extract_blocks (lit "model ") content
  /\ extract_enums content = extract_blocks (lit "enum ") content.
Proof.
  split.
  - exact (extract_extract_blocks Model content).
  - exact (extract_extract_blocks Enum content).
Qed.

(** C6.  When the document ends while a block is open (the line [o]
    started it, no later line starts a block and the depth is not zero
    after any of the later lines), the block is in the result, with all
    the lines from [o] to the end of the document. *)
Theorem unterminated_block_is_emitted (k : kind) (content : str)
    (pre : list str) (o : str) (rest : list str) :
  split_nl content = pre ++ o :: rest ->
  opens (keyword k) o = true ->
  Forall (fun l => opens (keyword k) l = false) rest ->
  (forall j, (1 <= j <= length rest)%nat ->
             depth_of (o :: firstn j rest) <> 0) ->
  exists n d,
    block_name o = Some n
    /\ extract k content = Ok d
    /\ dict_get n d = Some (join_nl (o :: rest)).
Proof.
  intros Hsplit Ho Hrest Hrun.
  pose proof (keyword_ok_kind k) as Hkw.
  rewrite extract_extract_blocks. unfold extract_blocks, scan.
  rewrite Hsplit, for_each_app.
  destruct (scan_invariant (keyword k) Hkw pre) as (st0 & Hst0 & _).
  unfold scan in Hst0. rewrite Hst0. cbn [bind for_each].
  destruct (step_open (keyword k) Hkw st0 o Ho) as (n & Hn & Hne & ->).
  cbn [bind].
  rewrite (scan_stays_open (keyword k) rest _ n);
    [| reflexivity | reflexivity | assumption | exact Hrun].
  cbn [bind]. exists n. eexists. split; [assumption|]. split; [reflexivity|].
  rewrite (store_current_open _ n (o :: rest));
    [apply dict_get_set_same | reflexivity | assumption | reflexivity
    | discriminate].
Qed.

Lemma unterminated_block_is_emitted_witness :
  exists n d,
    block_name (lit "model A {") = Some n
    /\ extract Model (lit "x" ++ newline :: lit "model A {" ++ newline :: lit " id Int")
       = Ok d
    /\ dict_get n d = Some (join_nl [lit "model A {"; lit " id Int"]).
Proof.
  apply (unterminated_block_is_emitted Model _ [lit "x"] (lit "model A {")
           [lit " id Int"]).
  - reflexivity.
  - reflexivity.
  - repeat constructor.
  - intros j Hj. cbn [length] in Hj.
    assert (j = 1%nat) as -> by lia. vm_compute. discriminate.
Defined.

(** The step at which a line [o'] starts a block while a block is open:
    the open block is stored with the lines accumulated so far, which are
    all the lines from its own opening line [o] up to the line before
    [o'], and the new block starts with the line [o'] alone. *)
Theorem opening_line_closes_open_block (k : kind) (ls : list str)
    (st : scanner) (o' : str) :
  run k ls = Ok st ->
  in_block st = true ->
  opens (keyword k) o' = true ->
  exists pre o mid n n' st',
    ls = pre ++ o :: mid
    /\ opens (keyword k) o = true
    /\ Forall (fun l => opens (keyword k) l = false) mid
    /\ block_name o = Some n
    /\ block_name o' = Some n'
    /\ step k st o' = Ok st'
    /\ dict_get n (blocks st') = Some (join_nl (o :: mid))
    /\ current_name st' = Some n'
    /\ current_content st' = [o']
    /\ in_block st' = true
    /\ brace_count st' = brace_delta o'.
Proof.
  intros Hrun Hin Ho'.
  pose proof (keyword_ok_kind k) as Hkw.
  rewrite run_scan in Hrun.
  destruct (scan_invariant (keyword k) Hkw ls) as (st1 & Hst1 & Hinv).
  rewrite Hrun in Hst1. injection Hst1 as <-.
  unfold scan_inv in Hinv. rewrite Hin in Hinv.
  destruct Hinv as (o & mid & n & [[pre Hpre] Hoo Hmid Hname Hne Hcur Hcont _ _]).
  destruct (step_open (keyword k) Hkw st o' Ho') as (n' & Hn' & _ & Hstep).
  exists pre, o, mid, n, n'. eexists.
  rewrite step_block_step, Hstep.
  repeat split; try assumption; try reflexivity.
  cbn [blocks].
  rewrite (store_current_open st n (o :: mid)); try assumption;
    [apply dict_get_set_same | discriminate].
Qed.

Lemma opening_line_closes_open_block_witness :
  exists pre o mid n n' st',
    [lit "model A {"; lit " id Int"] = pre ++ o :: mid
    /\ opens (keyword Model) o = true
    /\ Forall (fun l => opens (keyword Model) l = false) mid
    /\ block_name o = Some n
    /\ block_name (lit "model B {") = Some n'
    /\ step Model
         {| blocks := []; current_name := Some (lit "A");
            current_content := [lit "model A {"; lit " id Int"];
            in_block := true; brace_count := 1 |}
         (lit "model B {") = Ok st'
    /\ dict_get n (blocks st') = Some (join_nl (o :: mid))
    /\ current_name st' = Some n'
    /\ current_content st' = [lit "model B {"]
    /\ in_block st' = true
    /\ brace_count st' = brace_delta (lit "model B {").
Proof.
  apply (opening_line_closes_open_block Model
           [lit "model A {"; lit " id Int"]); reflexivity.
Defined.

(** C5, as the code has it.  A block is closed by the depth check when a
    step takes the scanner from inside a block to outside.  Its text,
    stored under the name of its opening line [o], is made of the lines
    from [o] to the closing line [c]; it has as many [{] as [}], and the
    running balance is not zero after any line strictly between the
    opening line and the closing line. *)
Theorem closed_block_is_balanced (k : kind) (ls : list str) (c : str)
    (st st' : scanner) :
  run k ls = Ok st ->
  step k st c = Ok st' ->
  in_block st = true ->
  in_block st' = false ->
  exists pre o mid n,
    ls = pre ++ o :: mid
    /\ opens (keyword k) o = true
    /\ block_name o = Some n
    /\ dict_get n (blocks st') = Some (join_nl (o :: mid ++ [c]))
    /\ count lbrace (join_nl (o :: mid ++ [c]))
       = count rbrace (join_nl (o :: mid ++ [c]))
    /\ depth_of (o :: mid ++ [c]) = 0
    /\ (forall i, (2 <= i < length (o :: mid ++ [c]))%nat ->
                  depth_of (firstn i (o :: mid ++ [c])) <> 0).
Proof.
  intros Hrun Hstep Hin Hout.
  pose proof (keyword_ok_kind k) as Hkw.
  rewrite run_scan in Hrun. rewrite step_block_step in Hstep.
  destruct (scan_invariant (keyword k) Hkw ls) as (st1 & Hst1 & Hinv).
  rewrite Hrun in Hst1. injection Hst1 as <-.
  unfold scan_inv in Hinv. rewrite Hin in Hinv.
  destruct Hinv as (o & mid & n & [[pre Hpre] Hoo Hmid Hname Hne Hcur Hcont Hcnt Hrunning]).
  destruct (opens (keyword k) c) eqn:Hc.
  { destruct (step_open (keyword k) Hkw st c Hc) as (m & _ & _ & E).
    rewrite E in Hstep. injection Hstep as <-. discriminate. }
  rewrite step_inside in Hstep by assumption.
  destruct (brace_count st + brace_delta c =? 0) eqn:Hz;
    injection Hstep as <-; [|discriminate].
  apply Z.eqb_eq in Hz.
  assert (Hd : depth_of (o :: mid ++ [c]) = 0).
  { change (o :: mid ++ [c]) with ((o :: mid) ++ [c]).
    rewrite depth_of_app, <- Hcnt. simpl. lia. }
  exists pre, o, mid, n. repeat split; try assumption.
  - cbn [blocks]. unfold store_closed. rewrite Hcur, Hcont.
    apply dict_get_set_same.
  - pose proof (depth_of_join (o :: mid ++ [c])) as Hj. lia.
  - intros i Hi. cbn [length] in Hi. rewrite length_app in Hi.
    cbn [length] in Hi.
    destruct i as [|i]; [lia|]. cbn [firstn].
    rewrite firstn_app. replace (i - length mid)%nat with 0%nat by lia.
    cbn [firstn]. rewrite app_nil_r. apply Hrunning. lia.
Qed.

Lemma closed_block_is_balanced_witness :
  exists pre o mid n,
    [lit "model A {"; lit " id Int"] = pre ++ o :: mid
    /\ opens (keyword Model) o = true
    /\ block_name o = Some n
    /\ dict_get n
         (blocks {| blocks := [(lit "A", join_nl [lit "model A {"; lit " id Int"; lit "}"])];
                    current_name := None; current_content := [];
                    in_block := false; brace_count := 0 |})
       = Some (join_nl (o :: mid ++ [lit "}"]))
    /\ count lbrace (join_nl (o :: mid ++ [lit "}"]))
       = count rbrace (join_nl (o :: mid ++ [lit "}"]))
    /\ depth_of (o :: mid ++ [lit "}"]) = 0
    /\ (forall i, (2 <= i < length (o :: mid ++ [lit "}"]))%nat ->
                  depth_of (firstn i (o :: mid ++ [lit "}"])) <> 0).
Proof.
  apply (closed_block_is_balanced Model [lit "model A {"; lit " id Int"]
           (lit "}")
           {| blocks := []; current_name := Some (lit "A");
              current_content := [lit "model A {"; lit " id Int"];
              in_block := true; brace_count := 1 |});
    reflexivity.
Defined.

(** C5 fails as stated: the block of a document that ends inside it is
    emitted with one [{] and no [}]. *)
Lemma partial_block_is_unbalanced :
  extract Model (lit "model A {") = Ok [(lit "A", lit "model A {")]
  /\ count lbrace (lit "model A {") <> count rbrace (lit "model A {").
Proof. split; [reflexivity | discriminate]. Qed.

(** C7 on the code: the opening line [model A {}] leaves the depth at
    zero, and the block is not closed there; the next line is taken into
    the block, which is emitted with two lines. *)
Theorem balanced_opening_line_takes_next_line :
  brace_delta (lit "model A {}") = 0
  /\ extract_models (lit "model A {}" ++ newline :: lit "// note" ++ [newline])
     = Ok [(lit "A", lit "model A {}" ++ newline :: lit "// note")].
Proof. split; reflexivity. Qed.

(** ** The registries *)

Lemma dict_get_In (n v : str) (d : dict) :
  dict_get n d = Some v -> In (n, v) d.
Proof.
  induction d as [|[k' v'] d IH]; simpl; [discriminate|].
  destruct (str_eqb n k') eqn:E.
  - apply str_eqb_eq in E. intros H. injection H as ->. subst. now left.
  - intros H. right. now apply IH.
Qed.

Lemma dict_mem_set (n k v : str) (d : dict) :
  dict_mem n d = true -> dict_mem n (dict_set k v d) = true.
Proof.
  intros H. apply dict_mem_keys. rewrite dict_keys_set.
  apply dict_mem_keys in H.
  destruct (dict_mem k d); [assumption | apply in_or_app; now left].
Qed.

(** After the loop over the blocks of a file, a name has what the
    registry had for it, or else what the file has. *)
Lemma add_blocks_get (k : kind) (items : dict) :
  forall registry n,
  dict_get n (fst (add_blocks k items registry))
  = match dict_get n registry with
    | Some v => Some v
    | None => dict_get n items
    end.
Proof.
  induction items as [|[n' c'] items IH]; intros registry n; simpl.
  - now destruct (dict_get n registry).
  - destruct (dict_mem n' registry) eqn:Hm; simpl.
    + destruct (add_blocks k items registry) as [r l] eqn:E. simpl.
      change r with (fst (r, l)). rewrite <- E, IH.
      destruct (dict_get n registry) eqn:G; [reflexivity|].
      destruct (str_eqb n n') eqn:En; [|reflexivity].
      apply str_eqb_eq in En. subst. unfold dict_mem in Hm.
      now rewrite G in Hm.
    + destruct (add_blocks k items (dict_set n' c' registry)) as [r l] eqn:E.
      simpl. change r with (fst (r, l)). rewrite <- E, IH.
      destruct (str_eqb n n') eqn:En.
      * apply str_eqb_eq in En. subst. rewrite dict_get_set_same.
        unfold dict_mem in Hm. now destruct (dict_get n' registry).
      * apply str_eqb_neq in En. now rewrite dict_get_set_other.
Qed.

Lemma add_blocks_skips (k : kind) (items : dict) :
  forall registry n c,
  In (n, c) items -> dict_mem n registry = true ->
  In (Skipped k n) (snd (add_blocks k items registry)).
Proof.
  induction items as [|[n' c'] items IH]; intros registry n c Hin Hm;
    [contradiction|].
  simpl. destruct Hin as [E | Hin].
  - injection E as -> ->. rewrite Hm. simpl.
    destruct (add_blocks k items registry). now left.
  - destruct (dict_mem n' registry) eqn:Hm'; simpl.
    + specialize (IH registry n c Hin Hm).
      destruct (add_blocks k items registry). now right.
    + specialize (IH (dict_set n' c' registry) n c Hin (dict_mem_set _ _ _ _ Hm)).
      destruct (add_blocks k items (dict_set n' c' registry)). now right.
Qed.

Lemma add_blocks_NoDup (k : kind) (items : dict) :
  forall registry,
  NoDup (dict_keys registry) ->
  NoDup (dict_keys (fst (add_blocks k items registry))).
Proof.
  induction items as [|[n' c'] items IH]; intros registry H; simpl;
    [assumption|].
  destruct (dict_mem n' registry); simpl.
  - specialize (IH registry H). now destruct (add_blocks k items registry).
  - specialize (IH _ (dict_set_NoDup n' c' registry H)).
    now destruct (add_blocks k items (dict_set n' c' registry)).
Qed.

Lemma add_blocks_log (k : kind) (items : dict) :
  forall registry,
  Forall (fun m => is_file_line m = false) (snd (add_blocks k items registry)).
Proof.
  induction items as [|[n' c'] items IH]; intros registry; simpl;
    [constructor|].
  destruct (dict_mem n' registry); simpl.
  - specialize (IH registry). destruct (add_blocks k items registry).
    now constructor.
  - specialize (IH (dict_set n' c' registry)).
    destruct (add_blocks k items (dict_set n' c' registry)). now constructor.
Qed.

(** ** The loop over the additional files *)

Lemma filter_none {A : Type} (f : A -> bool) (l : list A) :
  Forall (fun x => f x = false) l -> filter f l = [].
Proof.
  induction 1 as [|x l Hx _ IH]; simpl; [reflexivity | now rewrite Hx].
Qed.

Lemma merge_file_present (ms : merge_state) (schema_path content : str) :
  exists models enums,
    extract Model content = Ok models
    /\ extract Enum content = Ok enums
    /\ merge_file ms (schema_path, Some content)
       = Ok {| all_models := fst (add_blocks Model models (all_models ms));
               all_enums := fst (add_blocks Enum enums (all_enums ms));
               printed := printed ms
                 ++ FileSummary schema_path (length models) (length enums)
                    :: snd (add_blocks Model models (all_models ms))
                    ++ snd (add_blocks Enum enums (all_enums ms)) |}.
Proof.
  destruct (extract_total Model content) as (models & Hm & _).
  destruct (extract_total Enum content) as (enums & He & _).
  exists models, enums. repeat split; try assumption.
  unfold merge_file. simpl in Hm, He. rewrite Hm, He. simpl.
  destruct (add_blocks Model models (all_models ms)).
  now destruct (add_blocks Enum enums (all_enums ms)).
Qed.

Lemma merge_file_step (ms : merge_state) (entry : str * option str) :
  exists ms' L,
    merge_file ms entry = Ok ms'
    /\ printed ms' = printed ms ++ L
    /\ length (filter is_file_line L) = 1%nat
    /\ (forall k n,
          dict_get n (registry_of k ms')
          = match dict_get n (registry_of k ms) with
            | Some v => Some v
            | None => first_definition k n (present [entry])
            end)
    /\ (forall k, NoDup (dict_keys (registry_of k ms)) ->
                  NoDup (dict_keys (registry_of k ms'))).
Proof.
  destruct entry as [schema_path [content|]].
  - destruct (merge_file_present ms schema_path content)
      as (models & enums & Hm & He & ->).
    eexists. eexists. split; [reflexivity|]. cbn [printed].
    split; [reflexivity|]. split; [|split].
    + cbn [filter is_file_line length]. rewrite filter_app.
      pose proof (add_blocks_log Model models (all_models ms)) as H1.
      pose proof (add_blocks_log Enum enums (all_enums ms)) as H2.
      now rewrite (filter_none _ _ H1), (filter_none _ _ H2).
    + intros k n. unfold present. cbn [flat_map snd app first_definition].
      destruct k; cbn [registry_of all_models all_enums].
      * rewrite add_blocks_get, Hm. now destruct (dict_get n models).
      * rewrite add_blocks_get, He. now destruct (dict_get n enums).
    + intros k H. destruct k; cbn [registry_of all_models all_enums] in *;
        now apply add_blocks_NoDup.
  - eexists. eexists. split; [reflexivity|]. cbn [printed].
    split; [reflexivity|]. split; [reflexivity|]. split.
    + intros k n. destruct k; cbn; now destruct (dict_get n _).
    + intros k H. destruct k; exact H.
Qed.

Lemma first_definition_app (k : kind) (n : str) (docs docs' : list str) :
  first_definition k n (docs ++ docs')
  = match first_definition k n docs with
    | Some v => Some v
    | None => first_definition k n docs'
    end.
Proof.
  induction docs as [|doc docs IH]; [reflexivity|]. cbn [app first_definition].
  destruct (extract_total k doc) as (d & -> & _).
  now destruct (dict_get n d).
Qed.

Lemma present_cons (entry : str * option str)
    (files : list (str * option str)) :
  present (entry :: files) = present [entry] ++ present files.
Proof. unfold present. cbn [flat_map]. now rewrite app_nil_r. Qed.

Lemma present_app (files files' : list (str * option str)) :
  present (files ++ files') = present files ++ present files'.
Proof. unfold present. apply flat_map_app. Qed.

Lemma merge_loop (files : list (str * option str)) :
  forall ms, exists ms' L,
    for_each merge_file ms files = Ok ms'
    /\ printed ms' = printed ms ++ L
    /\ length (filter is_file_line L) = length files
    /\ (forall k n,
          dict_get n (registry_of k ms')
          = match dict_get n (registry_of k ms) with
            | Some v => Some v
            | None => first_definition k n (present files)
            end)
    /\ (forall k, NoDup (dict_keys (registry_of k ms)) ->
                  NoDup (dict_keys (registry_of k ms'))).
Proof.
  induction files as [|entry files IH]; intros ms.
  - exists ms, []. split; [reflexivity|]. rewrite app_nil_r.
    split; [reflexivity|]. split; [reflexivity|]. split.
    + intros k n. cbn. now destruct (dict_get n (registry_of k ms)).
    + trivial.
  - destruct (merge_file_step ms entry) as (ms1 & L1 & H1 & Hp1 & Hc1 & Hg1 & Hn1).
    destruct (IH ms1) as (ms2 & L2 & H2 & Hp2 & Hc2 & Hg2 & Hn2).
    exists ms2, (L1 ++ L2). cbn [for_each]. rewrite H1. cbn [bind].
    split; [assumption|]. split; [|split; [|split]].
    + now rewrite Hp2, Hp1, app_assoc.
    + rewrite filter_app, length_app, Hc1, Hc2. reflexivity.
    + intros k n. rewrite present_cons, first_definition_app, Hg2, Hg1.
      destruct (dict_get n (registry_of k ms)); [reflexivity|].
      now destruct (first_definition k n (present [entry])).
    + intros k H. apply Hn2, Hn1, H.
Qed.

(** [merge_schemas] returns, and what it returns. *)
Lemma merge_schemas_runs (main_content : str)
    (additional_schemas : list (str * option str)) :
  exists models0 enums0 ms L,
    extract Model main_content = Ok models0
    /\ extract Enum main_content = Ok enums0
    /\ for_each merge_file
         {| all_models := models0; all_enums := enums0;
            printed := [MainSummary (length models0) (length enums0)] |}
         additional_schemas = Ok ms
    /\ printed ms = MainSummary (length models0) (length enums0) :: L
    /\ length (filter is_file_line L) = length additional_schemas
    /\ (forall k n, dict_get n (registry_of k ms)
                    = first_definition k n
                        (main_content :: present additional_schemas))
    /\ (forall k, NoDup (dict_keys (registry_of k ms)))
    /\ merge_schemas main_content additional_schemas
       = Ok {| header := join_nl (header_lines (split_nl main_content));
               models_out := all_models ms;
               enums_out := all_enums ms;
               written :=
                 join_nl (consolidate
                            (join_nl (header_lines (split_nl main_content)))
                            (all_enums ms) (all_models ms));
               report := printed ms
                 ++ [Written;
                     Total (length (all_models ms)) (length (all_enums ms))] |}.
Proof.
  destruct (extract_total Model main_content) as (models0 & Hm & Hnm).
  destruct (extract_total Enum main_content) as (enums0 & He & Hne).
  destruct (merge_loop additional_schemas
              {| all_models := models0; all_enums := enums0;
                 printed := [MainSummary (length models0) (length enums0)] |})
    as (ms & L & Hloop & Hp & Hc & Hg & Hn).
  exists models0, enums0, ms, L. repeat split; try assumption.
  - intros k n. rewrite Hg. cbn [first_definition].
    destruct k; cbn [registry_of all_models all_enums].
    + rewrite Hm. now destruct (dict_get n models0).
    + rewrite He. now destruct (dict_get n enums0).
  - intros k. apply Hn. now destruct k.
  - unfold merge_schemas. simpl in Hm, He. rewrite Hm, He. cbn [bind].
    now rewrite Hloop.
Qed.

(** C8, as the code has it.  Scanning never fails: a line recognised as
    the start of a block always has a second whitespace-separated token,
    which becomes the name of the block whether or not it is an
    identifier, so [split()[1]] is never out of range, no document is
    abandoned and the merge of any documents returns. *)
Theorem scanning_never_fails (k : kind) (content : str) :
  (forall line, opens (keyword k) line = true ->
     exists n, block_name line = Some n /\ n <> [])
  /\ (forall lines, exists st, run k lines = Ok st)
  /\ (exists d, extract k content = Ok d)
  /\ (forall additional_schemas,
        exists m, merge_schemas content additional_schemas = Ok m).
Proof.
  split; [|split; [|split]].
  - intros line Ho. apply (opens_block_name (keyword k)); [|assumption].
    apply keyword_ok_kind.
  - intros lines. rewrite run_scan.
    destruct (scan_invariant (keyword k) (keyword_ok_kind k) lines)
      as (st & Hst & _).
    now exists st.
  - destruct (extract_total k content) as (d & Hd & _). now exists d.
  - intros additional_schemas.
    destruct (merge_schemas_runs content additional_schemas)
      as (models0 & enums0 & ms & L & _ & _ & _ & _ & _ & _ & _ & ->).
    eexists. reflexivity.
Qed.

(** ** The order of the names and [sorted] *)

Ltac cases_ltb :=
  unfold ascii_ltb in *;
  repeat match goal with
         | H : context [(?a <? ?b)%nat] |- _ => destruct (Nat.ltb_spec a b)
         | |- context [(?a <? ?b)%nat] => destruct (Nat.ltb_spec a b)
         end.

Lemma nat_of_ascii_inj (x y : ascii) :
  nat_of_ascii x = nat_of_ascii y -> x = y.
Proof.
  intros H. rewrite <- (ascii_nat_embedding x), <- (ascii_nat_embedding y).
  now rewrite H.
Qed.

Lemma str_leb_total (a b : str) : str_leb a b = false -> str_leb b a = true.
Proof.
  revert b; induction a as [|x a IH]; intros [|y b]; simpl; try congruence.
  intros H. cases_ltb; try congruence; try lia. now apply IH.
Qed.

Lemma str_leb_trans (a b c : str) :
  str_leb a b = true -> str_leb b c = true -> str_leb a c = true.
Proof.
  revert b c; induction a as [|x a IH]; intros [|y b] [|z c]; simpl;
    try congruence.
  intros H1 H2. cases_ltb; try congruence; try lia. now apply (IH b).
Qed.

Lemma str_leb_lex (a b : str) : str_leb a b = true -> a = b \/ lex_lt a b.
Proof.
  revert b; induction a as [|x a IH]; intros [|y b]; simpl; try congruence.
  - now left.
  - intros _. right. constructor.
  - intros H. cases_ltb; try congruence.
    + right. now constructor.
    + assert (x = y) as -> by (apply nat_of_ascii_inj; lia).
      destruct (IH b H) as [-> | Hlt]; [now left | right; now apply lex_lt_tail].
Qed.

Lemma lex_lt_str_ltb (a b : str) : lex_lt a b <-> str_ltb a b = true.
Proof.
  unfold str_ltb. split.
  - induction 1 as [c b | x y a b Hxy | x a b _ IH]; simpl.
    + reflexivity.
    + cases_ltb; try reflexivity; lia.
    + cases_ltb; try lia. exact IH.
  - revert b; induction a as [|x a IH]; intros [|y b]; simpl; try discriminate.
    + intros _. constructor.
    + intros Hlt. cases_ltb; try discriminate.
      * now constructor.
      * assert (x = y) as -> by (apply nat_of_ascii_inj; lia).
        apply lex_lt_tail. now apply IH.
Qed.

Lemma insert_sorted_perm (x : str) (xs : list str) :
  Permutation (insert_sorted x xs) (x :: xs).
Proof.
  induction xs as [|y ys IH]; simpl; [reflexivity|].
  destruct (str_leb x y); [reflexivity|].
  rewrite IH. apply perm_swap.
Qed.

Lemma sorted_perm (xs : list str) : Permutation (sorted xs) xs.
Proof.
  induction xs as [|x xs IH]; simpl; [reflexivity|].
  rewrite insert_sorted_perm. now constructor.
Qed.

Lemma insert_sorted_sorted (x : str) (xs : list str) :
  StronglySorted (fun a b => str_leb a b = true) xs ->
  StronglySorted (fun a b => str_leb a b = true) (insert_sorted x xs).
Proof.
  induction 1 as [|y ys Hs IH Hall]; simpl.
  - repeat constructor.
  - destruct (str_leb x y) eqn:E.
    + constructor; [now constructor|]. constructor; [assumption|].
      eapply Forall_impl; [|exact Hall]. intros z Hz. simpl in Hz.
      now apply (str_leb_trans x y z).
    + constructor; [assumption|].
      apply (Permutation_Forall (Permutation_sym (insert_sorted_perm x ys))).
      constructor; [now apply str_leb_total | assumption].
Qed.

Lemma sorted_sorted (xs : list str) :
  StronglySorted (fun a b => str_leb a b = true) (sorted xs).
Proof.
  induction xs as [|x xs IH]; simpl; [constructor|].
  now apply insert_sorted_sorted.
Qed.

Lemma sorted_strict (xs : list str) :
  NoDup xs -> StronglySorted lex_lt (sorted xs).
Proof.
  intros Hnd.
  assert (Hnd' : NoDup (sorted xs))
    by (apply (Permutation_NoDup (Permutation_sym (sorted_perm xs))), Hnd).
  pose proof (sorted_sorted xs) as Hs. clear Hnd.
  induction Hs as [|y ys Hs IH Hall]; [constructor|].
  inversion Hnd' as [|? ? Hnotin Hnd'']; subst.
  constructor; [now apply IH|].
  rewrite Forall_forall in *. intros z Hz.
  destruct (str_leb_lex y z (Hall z Hz)) as [-> | Hlt]; [contradiction|assumption].
Qed.

(** ** The rendered sections *)

Lemma join_nl_In (x : str) (ls : list str) :
  In x ls -> exists a b, join_nl ls = a ++ x ++ b.
Proof.
  induction ls as [|l ls IH]; [contradiction|].
  intros [-> | Hin].
  - destruct ls as [|l' ls].
    + exists [], []. simpl. now rewrite app_nil_r.
    + exists [], (newline :: join_nl (l' :: ls)). reflexivity.
  - destruct (IH Hin) as (a & b & E).
    destruct ls as [|l' ls]; [contradiction|].
    exists (l ++ newline :: a), b.
    change (join_nl (l :: l' :: ls)) with (l ++ newline :: join_nl (l' :: ls)).
    rewrite E, <- app_assoc. reflexivity.
Qed.

Lemma consolidate_In (hd : str) (enums models : dict) (k : kind) (n : str) :
  In n (dict_keys (match k with Model => models | Enum => enums end)) ->
  In (dict_item (match k with Model => models | Enum => enums end) n)
     (consolidate hd enums models).
Proof.
  intros Hin. unfold consolidate.
  assert (H : forall d, In n (dict_keys d) ->
    In (dict_item d n)
       (flat_map (fun name => [dict_item d name; []]) (sorted (dict_keys d)))).
  { intros d Hd. apply in_flat_map. exists n. split; [|now left].
    apply (Permutation_in _ (Permutation_sym (sorted_perm _))), Hd. }
  destruct k.
  - apply in_or_app. right. apply in_or_app. right.
    apply in_or_app. right. now apply H.
  - apply in_or_app. right. apply in_or_app. left. now apply H.
Qed.

(** ** The merge: order of the sections and duplicates *)

(** C2.  The text written is the header, the banner of the enums, the
    enums, the banner of the models and the models; in each section the
    blocks are those of the names of the registry, each once, in strictly
    ascending lexicographic order of the code points. *)
Theorem sections_are_sorted (main_content : str)
    (additional_schemas : list (str * option str)) :
  exists m enum_names model_names,
    merge_schemas main_content additional_schemas = Ok m
    /\ written m
       = join_nl
           ([header m; newline :: lit rule; lit "// ENUMS"; lit rule ++ [newline]]
            ++ flat_map (fun name => [dict_item (enums_out m) name; []]) enum_names
            ++ [newline :: lit rule; lit "// MODELS"; lit rule ++ [newline]]
            ++ flat_map (fun name => [dict_item (models_out m) name; []]) model_names)
    /\ StronglySorted lex_lt enum_names
    /\ Permutation enum_names (dict_keys (enums_out m))
    /\ StronglySorted lex_lt model_names
    /\ Permutation model_names (dict_keys (models_out m)).
Proof.
  destruct (merge_schemas_runs main_content additional_schemas)
    as (models0 & enums0 & ms & L & _ & _ & _ & _ & _ & _ & Hnd & ->).
  eexists. exists (sorted (dict_keys (all_enums ms))),
    (sorted (dict_keys (all_models ms))).
  split; [reflexivity|]. cbn [written header enums_out models_out].
  split; [reflexivity|].
  split; [apply sorted_strict, (Hnd Enum)|].
  split; [apply sorted_perm|].
  split; [apply sorted_strict, (Hnd Model) | apply sorted_perm].
Qed.

(** C1.  When the scan of the primary document gives [X] for the name [A]
    and the scan of a secondary document gives [Y], the registry ends with
    [X] under [A], the block rendered for [A] in the section of its kind
    is [X] and not [Y], [X] occurs in the text written, and the part of
    the report of that secondary document has the message that [A] was
    skipped as a duplicate. *)
Theorem first_seen_wins (k : kind) (main_content : str)
    (additional_schemas before after : list (str * option str))
    (schema_path content A X Y : str) (dm dc : dict) :
  additional_schemas = before ++ (schema_path, Some content) :: after ->
  extract k main_content = Ok dm -> dict_get A dm = Some X ->
  extract k content = Ok dc -> dict_get A dc = Some Y ->
  X <> Y ->
  exists m,
    merge_schemas main_content additional_schemas = Ok m
    /\ dict_get A (registry k m) = Some X
    /\ In A (sorted (dict_keys (registry k m)))
    /\ dict_item (registry k m) A = X
    /\ dict_item (registry k m) A <> Y
    /\ In X (consolidate (header m) (enums_out m) (models_out m))
    /\ (exists a b, written m = a ++ X ++ b)
    /\ (exists l1 models enums evs l2,
          report m = l1 ++ FileSummary schema_path models enums :: evs ++ l2
          /\ length (filter is_file_line l1) = length before
          /\ Forall (fun e => is_file_line e = false) evs
          /\ In (Skipped k A) evs).
Proof.
  intros Hfiles Hdm HX Hdc HY Hne. subst additional_schemas.
  destruct (merge_schemas_runs main_content
              (before ++ (schema_path, Some content) :: after))
    as (models0 & enums0 & ms & L & Hm0 & He0 & Hloop & _ & _ & _ & _ & ->).
  set (init := {| all_models := models0; all_enums := enums0;
                  printed := [MainSummary (length models0) (length enums0)] |})
    in *.
  destruct (merge_loop before init) as (ms1 & L1 & H1 & Hp1 & Hc1 & Hg1 & _).
  destruct (merge_file_present ms1 schema_path content)
    as (models & enums & Hm & He & H2).
  set (ms2 := {| all_models := fst (add_blocks Model models (all_models ms1));
                 all_enums := fst (add_blocks Enum enums (all_enums ms1));
                 printed := printed ms1
                   ++ FileSummary schema_path (length models) (length enums)
                      :: snd (add_blocks Model models (all_models ms1))
                      ++ snd (add_blocks Enum enums (all_enums ms1)) |}) in *.
  destruct (merge_loop after ms2) as (ms3 & L3 & H3 & Hp3 & _ & Hg3 & _).
  assert (ms = ms3) as ->.
  { rewrite for_each_app, H1 in Hloop. cbn [bind for_each] in Hloop.
    rewrite H2 in Hloop. cbn [bind] in Hloop. congruence. }
  assert (G0 : dict_get A (registry_of k init) = Some X).
  { destruct k; cbn [registry_of init all_models all_enums]; congruence. }
  assert (G1 : dict_get A (registry_of k ms1) = Some X)
    by now rewrite Hg1, G0.
  assert (G2 : dict_get A (registry_of k ms2) = Some X).
  { destruct k; cbn [registry_of ms2 all_models all_enums] in *;
      now rewrite add_blocks_get, G1. }
  assert (G3 : dict_get A (registry_of k ms3) = Some X)
    by now rewrite Hg3, G2.
  assert (Hskip : In (Skipped k A)
                     (snd (add_blocks Model models (all_models ms1))
                      ++ snd (add_blocks Enum enums (all_enums ms1)))).
  { apply in_or_app.
    assert (Hmem : dict_mem A (registry_of k ms1) = true)
      by (unfold dict_mem; now rewrite G1).
    destruct k; cbn [registry_of] in Hmem; [left | right].
    - apply (add_blocks_skips Model models _ A Y); [|assumption].
      apply dict_get_In. congruence.
    - apply (add_blocks_skips Enum enums _ A Y); [|assumption].
      apply dict_get_In. congruence. }
  assert (Hreg : forall m', registry k
            {| header := join_nl (header_lines (split_nl main_content));
               models_out := all_models ms3; enums_out := all_enums ms3;
               written := m'; report := printed ms3 ++
                 [Written; Total (length (all_models ms3)) (length (all_enums ms3))] |}
            = registry_of k ms3) by (intros; now destruct k).
  eexists. split; [reflexivity|]. rewrite Hreg.
  assert (Hkey : In A (dict_keys (registry_of k ms3))).
  { apply dict_mem_keys. unfold dict_mem. now rewrite G3. }
  assert (Hitem : dict_item (registry_of k ms3) A = X)
    by (unfold dict_item; now rewrite G3).
  assert (Hin : In X (consolidate (join_nl (header_lines (split_nl main_content)))
                        (all_enums ms3) (all_models ms3))).
  { rewrite <- Hitem.
    destruct k; [apply (consolidate_In _ _ _ Model) | apply (consolidate_In _ _ _ Enum)];
      exact Hkey. }
  split; [assumption|].
  split; [apply (Permutation_in _ (Permutation_sym (sorted_perm _))), Hkey|].
  split; [assumption|]. split; [congruence|].
  cbn [header enums_out models_out written report].
  split; [assumption|]. split; [now apply join_nl_In|].
  exists (printed ms1), (length models), (length enums),
    (snd (add_blocks Model models (all_models ms1))
     ++ snd (add_blocks Enum enums (all_enums ms1))),
    (L3 ++ [Written; Total (length (all_models ms3)) (length (all_enums ms3))]).
  split; [|split; [|split]].
  - rewrite Hp3. cbn [ms2 printed].
    rewrite <- ?app_assoc. cbn [app]. rewrite <- ?app_assoc. reflexivity.
  - rewrite Hp1. cbn [init printed app filter is_file_line]. exact Hc1.
  - apply Forall_app. split; apply add_blocks_log.
  - exact Hskip.
Qed.

Lemma first_seen_wins_witness :
  exists m,
    merge_schemas (join_nl [lit "model A {"; lit " x"; lit "}"])
      [(lit "extra.prisma", Some (join_nl [lit "model A {"; lit " y"; lit "}"]))]
    = Ok m
    /\ dict_get (lit "A") (registry Model m)
       = Some (join_nl [lit "model A {"; lit " x"; lit "}"])
    /\ In (lit "A") (sorted (dict_keys (registry Model m)))
    /\ dict_item (registry Model m) (lit "A")
       = join_nl [lit "model A {"; lit " x"; lit "}"]
    /\ dict_item (registry Model m) (lit "A")
       <> join_nl [lit "model A {"; lit " y"; lit "}"]
    /\ In (join_nl [lit "model A {"; lit " x"; lit "}"])
          (consolidate (header m) (enums_out m) (models_out m))
    /\ (exists a b,
          written m = a ++ join_nl [lit "model A {"; lit " x"; lit "}"] ++ b)
    /\ (exists l1 models enums evs l2,
          report m
          = l1 ++ FileSummary (lit "extra.prisma") models enums :: evs ++ l2
          /\ length (filter is_file_line l1) = length (@nil (str * option str))
          /\ Forall (fun e => is_file_line e = false) evs
          /\ In (Skipped Model (lit "A")) evs).
Proof.
  apply (first_seen_wins Model _ _ [] [] (lit "extra.prisma")
           (join_nl [lit "model A {"; lit " y"; lit "}"]) (lit "A")
           (join_nl [lit "model A {"; lit " x"; lit "}"])
           (join_nl [lit "model A {"; lit " y"; lit "}"])
           [(lit "A", join_nl [lit "model A {"; lit " x"; lit "}"])]
           [(lit "A", join_nl [lit "model A {"; lit " y"; lit "}"])]);
    try reflexivity.
  discriminate.
Defined.

(** C3, as the code has it.  In the loop that adds the blocks of a
    secondary document, a block whose name the registry already has leaves
    the entry as it was and is reported as a skipped duplicate; and after
    the whole merge every name has the content that the first document
    having it (the primary first, then the secondary ones in order) has
    for it. *)
Theorem duplicate_from_later_document_is_skipped (k : kind)
    (items registry0 : dict) (n c v : str) :
  In (n, c) items ->
  dict_get n registry0 = Some v ->
  dict_get n (fst (add_blocks k items registry0)) = Some v
  /\ In (Skipped k n) (snd (add_blocks k items registry0))
  /\ (forall main_content additional_schemas name,
        exists m,
          merge_schemas main_content additional_schemas = Ok m
          /\ dict_get name (registry k m)
             = first_definition k name
                 (main_content :: present additional_schemas)).
Proof.
  intros Hin Hget. split; [|split].
  - now rewrite add_blocks_get, Hget.
  - apply (add_blocks_skips k items registry0 n c Hin).
    unfold dict_mem. now rewrite Hget.
  - intros main_content additional_schemas name.
    destruct (merge_schemas_runs main_content additional_schemas)
      as (models0 & enums0 & ms & L & _ & _ & _ & _ & _ & Hg & _ & ->).
    eexists. split; [reflexivity|]. rewrite <- Hg. now destruct k.
Qed.

Lemma duplicate_from_later_document_is_skipped_witness :
  dict_get (lit "A")
    (fst (add_blocks Model [(lit "A", lit "model A { y }")]
            [(lit "A", lit "model A { x }")]))
  = Some (lit "model A { x }")
  /\ In (Skipped Model (lit "A"))
        (snd (add_blocks Model [(lit "A", lit "model A { y }")]
                [(lit "A", lit "model A { x }")]))
  /\ (forall main_content additional_schemas name,
        exists m,
          merge_schemas main_content additional_schemas = Ok m
          /\ dict_get name (registry Model m)
             = first_definition Model name
                 (main_content :: present additional_schemas)).
Proof.
  apply (duplicate_from_later_document_is_skipped Model
           [(lit "A", lit "model A { y }")] [(lit "A", lit "model A { x }")]
           (lit "A") (lit "model A { y }") (lit "model A { x }")).
  - now left.
  - reflexivity.
Defined.

(** C3 fails as stated: of two blocks named [A] in one document the scan
    stores the first and then replaces it by the second, so the content
    seen first is not the one kept. *)
Lemma later_block_of_a_document_replaces_earlier :
  (exists st,
     run Model [lit "model A {"; lit " x"; lit "}"] = Ok st
     /\ dict_get (lit "A") (blocks st)
        = Some (join_nl [lit "model A {"; lit " x"; lit "}"]))
  /\ extract Model
       (join_nl [lit "model A {"; lit " x"; lit "}";
                 lit "model A {"; lit " y"; lit "}"])
     = Ok [(lit "A", join_nl [lit "model A {"; lit " y"; lit "}"])]
  /\ join_nl [lit "model A {"; lit " x"; lit "}"]
     <> join_nl [lit "model A {"; lit " y"; lit "}"].
Proof.
  split; [|split].
  - eexists. split; reflexivity.
  - reflexivity.
  - discriminate.
Qed.

(** ** Lines and text *)

Lemma split_nl_nonempty (s : str) : split_nl s <> [].
Proof.
  induction s as [|c s IH]; simpl; [discriminate|].
  destruct (Ascii.eqb c newline); [discriminate|].
  destruct (split_nl s); discriminate.
Qed.

Lemma split_nl_app (a b : str) :
  split_nl (a ++ newline :: b) = split_nl a ++ split_nl b.
Proof.
  induction a as [|c a IH]; [reflexivity|].
  cbn [app split_nl]. rewrite IH.
  destruct (Ascii.eqb c newline); [reflexivity|].
  pose proof (split_nl_nonempty a) as Hne.
  destruct (split_nl a); [contradiction | reflexivity].
Qed.

Lemma split_nl_line (l : str) : no_nl l -> split_nl l = [l].
Proof.
  unfold no_nl. induction l as [|c l IH]; intros H; [reflexivity|].
  cbn [split_nl]. destruct (Ascii.eqb c newline) eqn:E.
  - apply Ascii.eqb_eq in E. subst. exfalso. apply H. now left.
  - rewrite IH; [reflexivity|]. intros Hin. apply H. now right.
Qed.

Lemma split_nl_lines (s : str) : Forall no_nl (split_nl s).
Proof.
  induction s as [|c s IH]; cbn [split_nl].
  - constructor; [intros [] | constructor].
  - destruct (Ascii.eqb c newline) eqn:E.
    + constructor; [intros [] | assumption].
    + destruct (split_nl s) as [|l ls]; inversion IH; subst.
      * repeat constructor. intros [-> | []]. now rewrite Ascii.eqb_refl in E.
      * constructor; [|assumption]. intros [-> | Hin]; [|contradiction].
        now rewrite Ascii.eqb_refl in E.
Qed.

Lemma join_nl_cons (l l' : str) (ls : list str) :
  join_nl (l :: l' :: ls) = l ++ newline :: join_nl (l' :: ls).
Proof. reflexivity. Qed.

Lemma join_nl_app (xs ys : list str) :
  xs <> [] -> ys <> [] ->
  join_nl (xs ++ ys) = join_nl xs ++ newline :: join_nl ys.
Proof.
  intros Hx Hy. induction xs as [|x xs IH]; [contradiction|].
  destruct xs as [|x' xs].
  - destruct ys; [contradiction | reflexivity].
  - change ((x :: x' :: xs) ++ ys) with (x :: x' :: (xs ++ ys)).
    rewrite !join_nl_cons. change (x' :: xs ++ ys) with ((x' :: xs) ++ ys).
    rewrite IH by discriminate. now rewrite <- app_assoc.
Qed.

Lemma join_split (s : str) : join_nl (split_nl s) = s.
Proof.
  induction s as [|c s IH]; [reflexivity|]. cbn [split_nl].
  pose proof (split_nl_nonempty s) as Hne.
  destruct (Ascii.eqb c newline) eqn:E.
  - apply Ascii.eqb_eq in E. subst.
    destruct (split_nl s) as [|l ls]; [contradiction|].
    rewrite join_nl_cons, IH. reflexivity.
  - destruct (split_nl s) as [|l ls]; [contradiction|].
    destruct ls as [|l' ls].
    + simpl in *. now rewrite IH.
    + rewrite join_nl_cons in *. rewrite <- IH. reflexivity.
Qed.

Lemma split_join (ls : list str) :
  ls <> [] -> Forall no_nl ls -> split_nl (join_nl ls) = ls.
Proof.
  intros Hne Hall. induction Hall as [|l ls Hl Hall IH]; [contradiction|].
  destruct ls as [|l' ls].
  - now apply split_nl_line.
  - rewrite join_nl_cons, split_nl_app, IH by discriminate.
    now rewrite split_nl_line.
Qed.

(** ** The header *)


Lemma header_lines_split (ls : list str) :
  Forall (fun l => starts_block l = false) (header_lines ls)
  /\ exists rest,
       ls = header_lines ls ++ rest
       /\ (rest = [] \/ exists o r, rest = o :: r /\ starts_block o = true).
Proof.
  induction ls as [|l ls (IH1 & rest & IH2 & IH3)].
  - split; [constructor|]. exists []. split; [reflexivity | now left].
  - cbn [header_lines].
    destruct (startswith (strip l) (lit "model ")
              || startswith (strip l) (lit "enum ")) eqn:E.
    + split; [constructor|]. exists (l :: ls). split; [reflexivity|].
      right. now exists l, ls.
    + split; [now constructor|]. exists rest. split; [|assumption].
      cbn [app]. now rewrite <- IH2.
Qed.

Lemma header_lines_no_nl (ls : list str) :
  Forall no_nl ls -> Forall no_nl (header_lines ls).
Proof.
  induction 1 as [|l ls Hl _ IH]; cbn [header_lines]; [constructor|].
  destruct (startswith (strip l) (lit "model ")
            || startswith (strip l) (lit "enum ")); now constructor.
Qed.

(** The lines of the header text: none of them starts a block. *)
Lemma header_text_lines (s : str) :
  Forall (fun l => starts_block l = false)
    (split_nl (join_nl (header_lines (split_nl s)))).
Proof.
  destruct (header_lines (split_nl s)) as [|l ls] eqn:E.
  - repeat constructor.
  - rewrite split_join.
    + rewrite <- E. apply header_lines_split.
    + discriminate.
    + rewrite <- E. apply header_lines_no_nl, split_nl_lines.
Qed.


Lemma no_nl_check (l : str) :
  forallb (fun c => negb (Ascii.eqb c newline)) l = true -> no_nl l.
Proof.
  intros H Hin. rewrite forallb_forall in H. specialize (H _ Hin).
  now rewrite Ascii.eqb_refl in H.
Qed.


(** ** Merging the output again *)



(** * Further properties of the script *)

(** ** The header *)


(** ** A path that does not exist *)




(** ** What the scanner returns *)

Lemma block_of_snoc (kw : str) (ls : list str) (l n v : str) :
  block_of kw ls n v -> block_of kw (ls ++ [l]) n v.
Proof.
  intros (pre & o & mid & post & -> & Ho & Hn & Hmid & ->).
  exists pre, o, mid, (post ++ [l]). repeat split; try assumption.
  rewrite <- app_assoc. cbn [app]. now rewrite <- app_assoc.
Qed.

Lemma dict_set_Forall (P : str * str -> Prop) (k v : str) (d : dict) :
  Forall P d -> P (k, v) -> Forall P (dict_set k v d).
Proof.
  intros Hd Hkv. induction Hd as [|[k' v'] d Hx Hd IH]; simpl.
  - now repeat constructor.
  - destruct (str_eqb k k') eqn:E.
    + apply str_eqb_eq in E. subst. now constructor.
    + now constructor.
Qed.

Lemma dict_set_keys_mono (n k v : str) (d : dict) :
  In n (dict_keys d) -> In n (dict_keys (dict_set k v d)).
Proof.
  intros H. rewrite dict_keys_set. destruct (dict_mem k d); [assumption|].
  apply in_or_app. now left.
Qed.

Lemma dict_set_keys_new (k v : str) (d : dict) :
  In k (dict_keys (dict_set k v d)).
Proof.
  apply dict_mem_keys. unfold dict_mem. now rewrite dict_get_set_same.
Qed.

Lemma dict_set_keys_inv (n k v : str) (d : dict) :
  In n (dict_keys (dict_set k v d)) -> n = k \/ In n (dict_keys d).
Proof.
  rewrite dict_keys_set. destruct (dict_mem k d); [now right|].
  intros H. apply in_app_or in H as [H | [<- | []]]; [now right | now left].
Qed.

Section ScannerResult.

Variable kw : str.
Hypothesis kw_ok : keyword_ok kw.

(** What [store_current] gives for a state that the scanner reaches. *)
Lemma store_current_reached (ls : list str) (st : scanner) :
  scan_inv kw ls st ->
  (in_block st = false /\ store_current st = blocks st)
  \/ (exists pre o mid n,
        in_block st = true /\ ls = pre ++ o :: mid
        /\ opens kw o = true /\ block_name o = Some n
        /\ Forall (fun l => opens kw l = false) mid
        /\ current_name st = Some n
        /\ current_content st = o :: mid
        /\ store_current st = dict_set n (join_nl (o :: mid)) (blocks st)).
Proof.
  unfold scan_inv. destruct (in_block st) eqn:Hin.
  - intros (o & mid & n & [[pre Hpre] Ho Hmid Hn Hne Hcur Hcont _ _]).
    right. exists pre, o, mid, n. repeat split; try assumption.
    apply store_current_open; try assumption. discriminate.
  - intros [Hcur _]. left. split; [reflexivity|].
    unfold store_current. now rewrite Hcur.
Qed.

(** Every entry of [blocks] is a run of the lines read, and every opening
    line read has its name in [blocks] or is the block being read. *)
Lemma scan_blocks (ls : list str) :
  forall st, scan kw ls = Ok st ->
  Forall (fun e => block_of kw ls (fst e) (snd e)) (blocks st)
  /\ (forall o, In o ls -> opens kw o = true ->
        exists n, block_name o = Some n
                  /\ (In n (dict_keys (blocks st)) \/ current_name st = Some n)).
Proof.
  induction ls as [|l ls IH] using rev_ind; intros st' Hscan.
  - injection Hscan as <-. split; [constructor | intros o []].
  - rewrite scan_snoc in Hscan.
    destruct (scan_invariant kw kw_ok ls) as (st & Hst & Hinv).
    rewrite Hst in Hscan. cbn [bind] in Hscan.
    destruct (IH st Hst) as (Hent & Hnames).
    assert (Hent' : Forall (fun e => block_of kw (ls ++ [l]) (fst e) (snd e))
                      (blocks st)).
    { eapply Forall_impl; [|exact Hent]. intros e. apply block_of_snoc. }
    destruct (opens kw l) eqn:Ho.
    + destruct (step_open kw kw_ok st l Ho) as (n' & Hn' & _ & E).
      rewrite E in Hscan. injection Hscan as <-.
      cbn [blocks current_name].
      destruct (store_current_reached ls st Hinv)
        as [[Hin ->] | (pre & o & mid & n & Hin & Hls & Hoo & Hn & Hmid & Hcur & _ & ->)].
      * split; [assumption|]. intros o Hino Hoo.
        apply in_app_or in Hino as [Hino | [<- | []]].
        -- destruct (Hnames o Hino Hoo) as (n & Hn & [Hk | Hc]).
           ++ exists n. split; [assumption | now left].
           ++ unfold scan_inv in Hinv. rewrite Hin in Hinv.
              destruct Hinv as [Hnone _]. congruence.
        -- exists n'. split; [assumption | now right].
      * split.
        -- apply dict_set_Forall; [assumption|]. cbn [fst snd].
           exists pre, o, mid, [l]. repeat split; try assumption.
           rewrite Hls, <- app_assoc. reflexivity.
        -- intros o1 Hino Hoo1.
           apply in_app_or in Hino as [Hino | [<- | []]].
           ++ destruct (Hnames o1 Hino Hoo1) as (n1 & Hn1 & [Hk | Hc]).
              ** exists n1. split; [assumption|]. left.
                 now apply dict_set_keys_mono.
              ** exists n1. split; [assumption|]. left.
                 assert (n1 = n) as -> by congruence.
                 apply dict_set_keys_new.
           ++ exists n'. split; [assumption | now right].
    + destruct (in_block st) eqn:Hin.
      * rewrite step_inside in Hscan by assumption.
        destruct (store_current_reached ls st Hinv)
          as [[Hin' _] | (pre & o & mid & n & _ & Hls & Hoo & Hn & Hmid & Hcur & Hcont & _)];
          [congruence|].
        assert (Hold : forall o1, In o1 (ls ++ [l]) -> opens kw o1 = true ->
                                  In o1 ls).
        { intros o1 Hino Hoo1.
          apply in_app_or in Hino as [Hino | [<- | []]];
            [assumption | congruence]. }
        destruct (brace_count st + brace_delta l =? 0);
          injection Hscan as <-; cbn [blocks current_name].
        -- unfold store_closed. rewrite Hcur, Hcont. split.
           ++ apply dict_set_Forall; [assumption|]. cbn [fst snd].
              exists pre, o, (mid ++ [l]), []. repeat split; try assumption.
              ** rewrite Hls, app_nil_r, <- app_assoc. reflexivity.
              ** apply Forall_app. split; [assumption | now repeat constructor].
           ++ intros o1 Hino Hoo1.
              destruct (Hnames o1 (Hold o1 Hino Hoo1) Hoo1)
                as (n1 & Hn1 & [Hk | Hc]).
              ** exists n1. split; [assumption|]. left.
                 now apply dict_set_keys_mono.
              ** exists n1. split; [assumption|]. left.
                 assert (n1 = n) as -> by congruence.
                 apply dict_set_keys_new.
        -- split; [assumption|]. intros o1 Hino Hoo1.
           apply (Hnames o1 (Hold o1 Hino Hoo1) Hoo1).
      * rewrite step_outside in Hscan by assumption. injection Hscan as <-.
        split; [assumption|]. intros o1 Hino Hoo1.
        apply in_app_or in Hino as [Hino | [<- | []]];
          [now apply Hnames | congruence].
Qed.

(** The same for the dictionary returned. *)
Lemma extract_blocks_result (content : str) :
  exists d,
    extract_blocks kw content = Ok d
    /\ Forall (fun e => block_of kw (split_nl content) (fst e) (snd e)) d
    /\ (forall o, In o (split_nl content) -> opens kw o = true ->
          exists n, block_name o = Some n /\ In n (dict_keys d)).
Proof.
  unfold extract_blocks.
  destruct (scan_invariant kw kw_ok (split_nl content)) as (st & Hst & Hinv).
  rewrite Hst. cbn [bind]. eexists. split; [reflexivity|].
  destruct (scan_blocks (split_nl content) st Hst) as (Hent & Hnames).
  destruct (store_current_reached (split_nl content) st Hinv)
    as [[Hin ->] | (pre & o & mid & n & Hin & Hls & Hoo & Hn & Hmid & Hcur & _ & ->)].
  - split; [assumption|]. intros o Hino Hoo.
    destruct (Hnames o Hino Hoo) as (n & Hn & [Hk | Hc]).
    + now exists n.
    + unfold scan_inv in Hinv. rewrite Hin in Hinv.
      destruct Hinv as [Hnone _]. congruence.
  - split.
    + apply dict_set_Forall; [assumption|]. cbn [fst snd].
      exists pre, o, mid, []. repeat split; try assumption.
      now rewrite app_nil_r.
    + intros o1 Hino Hoo1.
      destruct (Hnames o1 Hino Hoo1) as (n1 & Hn1 & [Hk | Hc]).
      * exists n1. split; [assumption | now apply dict_set_keys_mono].
      * exists n1. split; [assumption|].
        assert (n1 = n) as -> by congruence. apply dict_set_keys_new.
Qed.

End ScannerResult.

Lemma join_nl_infix (pre xs post : list str) :
  xs <> [] -> exists a b, join_nl (pre ++ xs ++ post) = a ++ join_nl xs ++ b.
Proof.
  intros Hxs.
  assert (H : exists b, join_nl (xs ++ post) = join_nl xs ++ b).
  { destruct post as [|p post].
    - exists []. now rewrite !app_nil_r.
    - exists (newline :: join_nl (p :: post)).
      apply join_nl_app; [assumption | discriminate]. }
  destruct H as (b & Hb).
  destruct pre as [|p pre].
  - exists [], b. exact Hb.
  - exists (join_nl (p :: pre) ++ [newline]), b.
    rewrite join_nl_app; [| discriminate |].
    + rewrite Hb, <- app_assoc. reflexivity.
    + destruct xs; [contradiction | discriminate].
Qed.

Lemma dict_keys_get (n : str) (d : dict) :
  In n (dict_keys d) <-> exists v, dict_get n d = Some v.
Proof.
  rewrite <- dict_mem_keys. unfold dict_mem.
  destruct (dict_get n d) as [v|]; split; try discriminate.
  - intros _. now exists v.
  - reflexivity.
  - intros [v Hv]. discriminate.
Qed.

Lemma extract_names (k : kind) (content : str) :
  exists d,
    extract k content = Ok d
    /\ NoDup (dict_keys d)
    /\ forall n,
         In n (dict_keys d)
         <-> exists o, In o (split_nl content)
                       /\ opens (keyword k) o = true
                       /\ block_name o = Some n.
Proof.
  rewrite extract_extract_blocks.
  destruct (extract_blocks_result (keyword k) (keyword_ok_kind k) content)
    as (d & Hd & Hent & Hnames).
  destruct (extract_blocks_total (keyword k) content (keyword_ok_kind k))
    as (d' & Hd' & Hnd).
  assert (d' = d) as -> by congruence.
  exists d. split; [assumption|]. split; [assumption|].
  intros n. split.
  - intros Hin. apply dict_keys_get in Hin as [v Hv].
    apply dict_get_In in Hv. rewrite Forall_forall in Hent.
    destruct (Hent _ Hv) as (pre & o & mid & post & Hls & Ho & Hn & _).
    exists o. split; [|now split]. rewrite Hls. apply in_or_app. right. now left.
  - intros (o & Hin & Ho & Hn).
    destruct (Hnames o Hin Ho) as (n' & Hn' & Hk). congruence.
Qed.

(** X3.  The names in the result of a scan are exactly the second tokens of
    the lines of the text that start a block of its kind, each once. *)
Theorem names_are_those_of_the_opening_lines (k : kind) (content : str) :
  exists d,
    extract k content = Ok d
    /\ NoDup (dict_keys d)
    /\ forall n,
         In n (dict_keys d)
         <-> exists o, In o (split_nl content)
                       /\ opens (keyword k) o = true
                       /\ block_name o = Some n.
Proof. exact (extract_names k content). Qed.

(** X4.  Every text in the result of a scan is a run of lines of the document,
    joined as they were: it starts at a line that starts a block and whose
    second token is the name, it has no other such line, and it occurs
    verbatim in the document. *)
Theorem blocks_are_runs_of_lines (k : kind) (content : str) :
  exists d,
    extract k content = Ok d
    /\ forall n v, dict_get n d = Some v ->
         (exists pre o mid post,
            split_nl content = pre ++ o :: mid ++ post
            /\ opens (keyword k) o = true
            /\ block_name o = Some n
            /\ Forall (fun l => opens (keyword k) l = false) mid
            /\ v = join_nl (o :: mid))
         /\ exists a b, content = a ++ v ++ b.
Proof.
  rewrite extract_extract_blocks.
  destruct (extract_blocks_result (keyword k) (keyword_ok_kind k) content)
    as (d & Hd & Hent & _).
  exists d. split; [assumption|]. intros n v Hv.
  apply dict_get_In in Hv. rewrite Forall_forall in Hent.
  pose proof (Hent _ Hv) as Hb. cbn [fst snd] in Hb.
  split; [exact Hb|].
  destruct Hb as (pre & o & mid & post & Hls & _ & _ & _ & ->).
  destruct (join_nl_infix pre (o :: mid) post) as (a & b & E); [discriminate|].
  exists a, b. rewrite <- E. change ((o :: mid) ++ post) with (o :: mid ++ post).
  now rewrite <- Hls, join_split.
Qed.

(** X5.  A text none of whose lines starts a block of the kind gives the empty
    dictionary. *)
Theorem no_opening_line_no_block (k : kind) (content : str) :
  Forall (fun l => opens (keyword k) l = false) (split_nl content) ->
  extract k content = Ok [].
Proof.
  intros Hno.
  destruct (extract_names k content) as (d & Hd & _ & Hkeys).
  rewrite Hd. f_equal. destruct d as [|[n v] d]; [reflexivity|].
  destruct (proj1 (Hkeys n) (or_introl eq_refl)) as (o & Hin & Ho & _).
  rewrite Forall_forall in Hno. rewrite (Hno o Hin) in Ho. discriminate.
Qed.

Lemma no_opening_line_no_block_witness :
  extract Enum (join_nl [lit "generator client {"; lit "}";
                         lit "model A {"; lit "}"]) = Ok [].
Proof.
  apply no_opening_line_no_block. repeat constructor.
Defined.

(** ** Where the merged blocks come from *)

Lemma first_definition_Some (k : kind) (n v : str) (docs : list str) :
  first_definition k n docs = Some v ->
  exists doc d, In doc docs /\ extract k doc = Ok d /\ dict_get n d = Some v.
Proof.
  induction docs as [|doc docs IH]; [discriminate|]. cbn [first_definition].
  destruct (extract_total k doc) as (d & Hd & _). rewrite Hd.
  destruct (dict_get n d) as [v'|] eqn:G.
  - intros H. injection H as <-. exists doc, d. repeat split; try assumption.
    now left.
  - intros H. destruct (IH H) as (doc' & d' & Hin & Hd' & Hg).
    exists doc', d'. repeat split; try assumption. now right.
Qed.

Lemma first_definition_None (k : kind) (n : str) (docs : list str) :
  first_definition k n docs = None ->
  forall doc d, In doc docs -> extract k doc = Ok d -> dict_get n d = None.
Proof.
  induction docs as [|doc docs IH]; [intros _ ? ? []|]. cbn [first_definition].
  destruct (extract_total k doc) as (d & Hd & _). rewrite Hd.
  destruct (dict_get n d) as [v'|] eqn:G; [discriminate|].
  intros H doc' d' [<- | Hin] Hd'; [congruence | now apply (IH H doc')].
Qed.

(** X9.  The merged registry of a kind has exactly the names that some
    document, the main schema or an additional file that exists, has on a
    line starting a block of the kind; and what it has under a name is
    what the scan of one of these documents returns for it. *)
Theorem merged_blocks_come_from_the_documents (k : kind) (main_content : str)
    (additional_schemas : list (str * option str)) :
  exists m,
    merge_schemas main_content additional_schemas = Ok m
    /\ (forall n,
          In n (dict_keys (registry k m))
          <-> exists doc o,
                In doc (main_content :: present additional_schemas)
                /\ In o (split_nl doc)
                /\ opens (keyword k) o = true
                /\ block_name o = Some n)
    /\ (forall n v,
          dict_get n (registry k m) = Some v ->
          exists doc d,
            In doc (main_content :: present additional_schemas)
            /\ extract k doc = Ok d
            /\ dict_get n d = Some v).
Proof.
  destruct (merge_schemas_runs main_content additional_schemas)
    as (models0 & enums0 & ms & L & _ & _ & _ & _ & _ & Hg & _ & ->).
  eexists. split; [reflexivity|].
  assert (Hreg : forall w r,
            registry k {| header := join_nl (header_lines (split_nl main_content));
                          models_out := all_models ms; enums_out := all_enums ms;
                          written := w; report := r |}
            = registry_of k ms) by (intros; now destruct k).
  rewrite Hreg. split.
  - intros n. rewrite dict_keys_get, Hg. split.
    + intros [v Hv].
      destruct (first_definition_Some k n v _ Hv) as (doc & d & Hin & Hd & Hget).
      destruct (extract_names k doc) as (d' & Hd' & _ & Hkeys).
      assert (d' = d) as -> by congruence.
      destruct (proj1 (Hkeys n)) as (o & Ho); [apply dict_keys_get; now exists v|].
      now exists doc, o.
    + intros (doc & o & Hin & Ho).
      destruct (first_definition k n (main_content :: present additional_schemas))
        as [v|] eqn:E; [now exists v|].
      destruct (extract_names k doc) as (d & Hd & _ & Hkeys).
      pose proof (first_definition_None k n _ E doc d Hin Hd) as Hnone.
      assert (Hk : In n (dict_keys d)) by (apply Hkeys; now exists o).
      apply dict_keys_get in Hk as [v Hv]. congruence.
  - intros n v Hv. rewrite Hg in Hv. now apply first_definition_Some in Hv.
Qed.

(** ** The counts of the report *)

Lemma dict_set_length (k v : str) (d : dict) :
  length (dict_set k v d) = if dict_mem k d then length d else S (length d).
Proof.
  unfold dict_mem. induction d as [|[k' v'] d IH]; simpl; [reflexivity|].
  destruct (str_eqb k k'); simpl; [reflexivity|].
  rewrite IH. now destruct (dict_get k d).
Qed.

Lemma kind_eqb_refl (k : kind) : kind_eqb k k = true.
Proof. now destruct k. Qed.

Lemma add_blocks_counts (k : kind) (items : dict) :
  forall registry0,
  (length (fst (add_blocks k items registry0))
   = length registry0
     + length (filter (is_added k) (snd (add_blocks k items registry0))))%nat
  /\ (length (filter (is_added k) (snd (add_blocks k items registry0)))
      + length (filter (is_skipped k) (snd (add_blocks k items registry0)))
      = length items)%nat.
Proof.
  induction items as [|[n c] items IH]; intros registry0; simpl.
  - split; lia.
  - destruct (dict_mem n registry0) eqn:Hm; simpl.
    + specialize (IH registry0).
      destruct (add_blocks k items registry0) as [r l]. simpl in *.
      rewrite kind_eqb_refl. simpl. lia.
    + specialize (IH (dict_set n c registry0)).
      rewrite dict_set_length, Hm in IH.
      destruct (add_blocks k items (dict_set n c registry0)) as [r l].
      simpl in *. rewrite kind_eqb_refl. simpl. lia.
Qed.

Lemma add_blocks_other_kind (k k' : kind) (items registry0 : dict) :
  kind_eqb k k' = false ->
  filter (is_added k) (snd (add_blocks k' items registry0)) = []
  /\ filter (is_skipped k) (snd (add_blocks k' items registry0)) = [].
Proof.
  intros Hk. revert registry0.
  induction items as [|[n c] items IH]; intros registry0; simpl;
    [now split|].
  destruct (dict_mem n registry0); simpl.
  - specialize (IH registry0). destruct (add_blocks k' items registry0).
    simpl in *. now rewrite Hk.
  - specialize (IH (dict_set n c registry0)).
    destruct (add_blocks k' items (dict_set n c registry0)).
    simpl in *. now rewrite Hk.
Qed.

Lemma merge_loop_counts (k : kind) (files : list (str * option str)) :
  forall ms ms',
  for_each merge_file ms files = Ok ms' ->
  exists L,
    printed ms' = printed ms ++ L
    /\ (length (registry_of k ms')
        = length (registry_of k ms) + length (filter (is_added k) L))%nat
    /\ (length (filter (is_added k) L) + length (filter (is_skipped k) L)
        = found k files)%nat.
Proof.
  induction files as [|[schema_path [content|]] files IH]; intros ms ms' Hloop.
  - injection Hloop as <-. exists []. rewrite app_nil_r. cbn. repeat split; lia.
  - cbn [for_each] in Hloop.
    destruct (merge_file_present ms schema_path content)
      as (models & enums & Hm & He & E).
    rewrite E in Hloop. cbn [bind] in Hloop.
    destruct (IH _ _ Hloop) as (L & HL & Hlen & Hcount).
    eexists. split; [rewrite HL; cbn [printed]; rewrite <- app_assoc; reflexivity|].
    unfold found in *. rewrite present_cons. unfold present at 1.
    cbn [flat_map snd app map list_sum]. fold (present files).
    cbn [filter is_added is_skipped]. rewrite !filter_app, !length_app.
    destruct k; cbn [registry_of all_models all_enums] in *.
    + rewrite Hm.
      destruct (add_blocks_counts Model models (all_models ms)) as (C1 & C2).
      destruct (add_blocks_other_kind Model Enum enums (all_enums ms) eq_refl)
        as (-> & ->).
      cbn [length]. unfold list_sum in *. cbn [fold_right]. split; lia.
    + rewrite He.
      destruct (add_blocks_counts Enum enums (all_enums ms)) as (C1 & C2).
      destruct (add_blocks_other_kind Enum Model models (all_models ms) eq_refl)
        as (-> & ->).
      cbn [length]. unfold list_sum in *. cbn [fold_right]. split; lia.
  - cbn [for_each merge_file bind] in Hloop.
    destruct (IH _ _ Hloop) as (L & HL & Hlen & Hcount).
    exists (NotFound schema_path :: L).
    split; [rewrite HL; cbn [printed]; now rewrite <- app_assoc|].
    split.
    + rewrite Hlen. now destruct k.
    + exact Hcount.
Qed.

(** X11.  The counts add up.  For each kind, the final registry has as many
    blocks as the main schema plus one for every message that a block was
    added; and every block that the scan of an additional file returns is
    reported once, as added or as a skipped duplicate. *)
Theorem report_adds_up (k : kind) (main_content : str)
    (additional_schemas : list (str * option str)) :
  exists m d0,
    merge_schemas main_content additional_schemas = Ok m
    /\ extract k main_content = Ok d0
    /\ (length (registry k m)
        = length d0 + length (filter (is_added k) (report m)))%nat
    /\ (length (filter (is_added k) (report m))
        + length (filter (is_skipped k) (report m))
        = found k additional_schemas)%nat
    /\ In (Total (length (models_out m)) (length (enums_out m))) (report m).
Proof.
  destruct (merge_schemas_runs main_content additional_schemas)
    as (models0 & enums0 & ms & L & Hm0 & He0 & Hloop & _ & _ & _ & _ & ->).
  destruct (merge_loop_counts k _ _ _ Hloop) as (L' & HL & Hlen & Hcount).
  eexists. exists (match k with Model => models0 | Enum => enums0 end).
  split; [reflexivity|]. split; [now destruct k|].
  cbn [report models_out enums_out]. rewrite HL. cbn [printed].
  cbn [app filter is_added is_skipped].
  rewrite !filter_app, !length_app. cbn [filter is_added is_skipped length].
  rewrite !Nat.add_0_r.
  split; [|split; [exact Hcount|]].
  - destruct k; cbn [registry registry_of models_out enums_out all_models all_enums] in *;
      exact Hlen.
  - right. apply in_or_app. right. right. now left.
Qed.

(** ** The order of the additional files *)

Lemma str_leb_antisym (a b : str) :
  str_leb a b = true -> str_leb b a = true -> a = b.
Proof.
  revert b; induction a as [|x a IH]; intros [|y b]; simpl; try congruence.
  intros H1 H2. cases_ltb; try congruence; try lia.
  assert (x = y) as -> by (apply nat_of_ascii_inj; lia).
  f_equal. now apply IH.
Qed.

Lemma sorted_lists_equal (l1 : list str) :
  forall l2,
  StronglySorted (fun a b => str_leb a b = true) l1 ->
  StronglySorted (fun a b => str_leb a b = true) l2 ->
  Permutation l1 l2 -> l1 = l2.
Proof.
  induction l1 as [|a l1 IH]; intros l2 H1 H2 Hp.
  - apply Permutation_nil in Hp. now subst.
  - destruct l2 as [|b l2];
      [apply Permutation_sym, Permutation_nil in Hp; discriminate|].
    inversion H1 as [|? ? H1' Ha]; inversion H2 as [|? ? H2' Hb]; subst.
    rewrite Forall_forall in Ha, Hb.
    assert (a = b) as ->.
    { assert (Hab : In a (b :: l2))
        by (apply (Permutation_in _ Hp); now left).
      assert (Hba : In b (a :: l1))
        by (apply (Permutation_in _ (Permutation_sym Hp)); now left).
      destruct Hab as [-> | Hab]; [reflexivity|].
      destruct Hba as [-> | Hba]; [reflexivity|].
      apply str_leb_antisym; [now apply Ha | now apply Hb]. }
    f_equal. apply IH; try assumption. now apply Permutation_cons_inv in Hp.
Qed.

Lemma sorted_of_permutation (l1 l2 : list str) :
  Permutation l1 l2 -> sorted l1 = sorted l2.
Proof.
  intros Hp. apply sorted_lists_equal; try apply sorted_sorted.
  rewrite !sorted_perm. exact Hp.
Qed.

(** The text written depends on the registries only through what they
    have under each name. *)
Lemma consolidate_lookup (hd : str) (e1 m1 e2 m2 : dict) :
  NoDup (dict_keys e1) -> NoDup (dict_keys e2) ->
  NoDup (dict_keys m1) -> NoDup (dict_keys m2) ->
  (forall n, dict_get n e1 = dict_get n e2) ->
  (forall n, dict_get n m1 = dict_get n m2) ->
  consolidate hd e1 m1 = consolidate hd e2 m2.
Proof.
  intros Ne1 Ne2 Nm1 Nm2 He Hm. unfold consolidate.
  assert (Hs : forall d1 d2, NoDup (dict_keys d1) -> NoDup (dict_keys d2) ->
            (forall n, dict_get n d1 = dict_get n d2) ->
            flat_map (fun name => [dict_item d1 name; []]) (sorted (dict_keys d1))
            = flat_map (fun name => [dict_item d2 name; []]) (sorted (dict_keys d2))).
  { intros d1 d2 N1 N2 H.
    rewrite (sorted_of_permutation (dict_keys d1) (dict_keys d2)).
    - apply flat_map_ext. intros n. unfold dict_item. now rewrite H.
    - apply NoDup_Permutation; try assumption.
      intros n. rewrite !dict_keys_get. now rewrite H. }
  now rewrite (Hs e1 e2), (Hs m1 m2).
Qed.

Lemma first_definition_permutation (k : kind) (n : str) (docs docs' : list str) :
  Permutation docs docs' ->
  (forall c1 c2 d1 d2 v1 v2,
     In c1 docs -> In c2 docs ->
     extract k c1 = Ok d1 -> extract k c2 = Ok d2 ->
     dict_get n d1 = Some v1 -> dict_get n d2 = Some v2 -> v1 = v2) ->
  first_definition k n docs = first_definition k n docs'.
Proof.
  intros Hp Hagree.
  destruct (first_definition k n docs) as [v|] eqn:E1;
    destruct (first_definition k n docs') as [v'|] eqn:E2; try reflexivity.
  - apply first_definition_Some in E1 as (c1 & d1 & Hin1 & Hd1 & Hg1).
    apply first_definition_Some in E2 as (c2 & d2 & Hin2 & Hd2 & Hg2).
    f_equal. apply (Hagree c1 c2 d1 d2); try assumption.
    apply (Permutation_in _ (Permutation_sym Hp)), Hin2.
  - apply first_definition_Some in E1 as (c1 & d1 & Hin1 & Hd1 & Hg1).
    pose proof (first_definition_None k n _ E2 c1 d1
                  (Permutation_in _ Hp Hin1) Hd1). congruence.
  - apply first_definition_Some in E2 as (c2 & d2 & Hin2 & Hd2 & Hg2).
    pose proof (first_definition_None k n _ E1 c2 d2
                  (Permutation_in _ (Permutation_sym Hp) Hin2) Hd2). congruence.
Qed.

(** X12.  When the additional files agree on every name that two of them have
    (in particular when no name is in two of them), the order in which
    they are merged does not change the registries' contents or the text
    written. *)
Theorem order_of_additional_files_is_irrelevant (main_content : str)
    (additional_schemas additional_schemas' : list (str * option str)) :
  Permutation additional_schemas additional_schemas' ->
  (forall k n c1 c2 d1 d2 v1 v2,
     In c1 (present additional_schemas) -> In c2 (present additional_schemas) ->
     extract k c1 = Ok d1 -> extract k c2 = Ok d2 ->
     dict_get n d1 = Some v1 -> dict_get n d2 = Some v2 -> v1 = v2) ->
  exists m m',
    merge_schemas main_content additional_schemas = Ok m
    /\ merge_schemas main_content additional_schemas' = Ok m'
    /\ (forall k n, dict_get n (registry k m) = dict_get n (registry k m'))
    /\ header m = header m'
    /\ written m = written m'.
Proof.
  intros Hp Hagree.
  destruct (merge_schemas_runs main_content additional_schemas)
    as (models0 & enums0 & ms & L & _ & _ & _ & _ & _ & Hg & Hnd & ->).
  destruct (merge_schemas_runs main_content additional_schemas')
    as (models0' & enums0' & ms' & L' & _ & _ & _ & _ & _ & Hg' & Hnd' & ->).
  assert (Hsame : forall k n,
            dict_get n (registry_of k ms) = dict_get n (registry_of k ms')).
  { intros k n. rewrite Hg, Hg'. cbn [first_definition].
    destruct (extract k main_content) as [d|]; [|reflexivity].
    destruct (dict_get n d); [reflexivity|].
    apply first_definition_permutation.
    - unfold present. now apply Permutation_flat_map.
    - intros c1 c2 d1 d2 v1 v2. apply (Hagree k n). }
  eexists. eexists. split; [reflexivity|]. split; [reflexivity|].
  cbn [header written]. split; [|split; [reflexivity|]].
  - intros k n. destruct k; [apply (Hsame Model) | apply (Hsame Enum)].
  - f_equal. apply consolidate_lookup.
    + apply (Hnd Enum).
    + apply (Hnd' Enum).
    + apply (Hnd Model).
    + apply (Hnd' Model).
    + apply (Hsame Enum).
    + apply (Hsame Model).
Qed.

Lemma order_of_additional_files_is_irrelevant_witness :
  exists m m',
    merge_schemas (lit "generator client {}")
      [(lit "a.prisma", Some (join_nl [lit "model A {"; lit "}"]));
       (lit "b.prisma", Some (join_nl [lit "enum B {"; lit "}"]))] = Ok m
    /\ merge_schemas (lit "generator client {}")
         [(lit "b.prisma", Some (join_nl [lit "enum B {"; lit "}"]));
          (lit "a.prisma", Some (join_nl [lit "model A {"; lit "}"]))] = Ok m'
    /\ (forall k n, dict_get n (registry k m) = dict_get n (registry k m'))
    /\ header m = header m'
    /\ written m = written m'.
Proof.
  apply order_of_additional_files_is_irrelevant.
  - apply perm_swap.
  - intros k n c1 c2 d1 d2 v1 v2 H1 H2 E1 E2 G1 G2.
    destruct H1 as [<- | [<- | []]]; destruct H2 as [<- | [<- | []]];
      destruct k; vm_compute in E1, E2;
      injection E1 as <-; injection E2 as <-;
      simpl in G1, G2; congruence.
Defined.

(** ** Scanning a text after another *)

Lemma dict_get_set (m n v : str) (d : dict) :
  dict_get m (dict_set n v d) = if str_eqb m n then Some v else dict_get m d.
Proof.
  destruct (str_eqb m n) eqn:E.
  - apply str_eqb_eq in E. subst. apply dict_get_set_same.
  - apply str_eqb_neq in E. now apply dict_get_set_other.
Qed.

Lemma dict_set_over (before d1 d2 : dict) (n v : str) :
  (forall m, dict_get m d1
             = match dict_get m d2 with
               | Some w => Some w
               | None => dict_get m before
               end) ->
  forall m, dict_get m (dict_set n v d1)
            = match dict_get m (dict_set n v d2) with
              | Some w => Some w
              | None => dict_get m before
              end.
Proof.
  intros H m. rewrite !dict_get_set. destruct (str_eqb m n); [reflexivity|].
  apply H.
Qed.

Lemma store_current_over (before : dict) (s1 s2 : scanner) :
  stored_over before s1 s2 ->
  forall m, dict_get m (store_current s1)
            = match dict_get m (store_current s2) with
              | Some w => Some w
              | None => dict_get m before
              end.
Proof.
  intros (Hn & Hc & _ & _ & Hb). unfold store_current. rewrite <- Hn, <- Hc.
  destruct (current_name s1) as [[|c n]|]; try exact Hb.
  destruct (current_content s1); [exact Hb|]. now apply dict_set_over.
Qed.

Lemma block_step_over (kw : str) (before : dict) (s1 s2 s1' : scanner)
    (line : str) :
  stored_over before s1 s2 ->
  block_step kw s1 line = Ok s1' ->
  exists s2', block_step kw s2 line = Ok s2' /\ stored_over before s1' s2'.
Proof.
  intros Hrel Hstep. pose proof Hrel as (Hn & Hc & Hi & Hbc & Hb).
  unfold block_step in *.
  destruct (startswith (strip line) kw).
  - destruct (nth_error (split_ws (strip line)) 1) as [name|]; [|discriminate].
    injection Hstep as <-. eexists. split; [reflexivity|].
    repeat split; try reflexivity; try (intros _; reflexivity).
    cbn [blocks]. now apply store_current_over.
  - rewrite <- Hi. destruct (in_block s1) eqn:Hin.
    + rewrite <- (Hbc eq_refl), <- Hc.
      destruct (brace_count s1 + brace_delta line =? 0);
        injection Hstep as <-; eexists; (split; [reflexivity|]).
      * repeat split; try reflexivity; try (intros _; reflexivity).
        cbn [blocks]. unfold store_closed.
        rewrite <- Hn. destruct (current_name s1); [|exact Hb].
        now apply dict_set_over.
      * repeat split; try reflexivity; try (intros _; reflexivity);
          assumption.
    + injection Hstep as <-. exists s2. split; [reflexivity | exact Hrel].
Qed.

Lemma for_each_over (kw : str) (before : dict) (lines : list str) :
  forall s1 s2 s1',
  stored_over before s1 s2 ->
  for_each (block_step kw) s1 lines = Ok s1' ->
  exists s2', for_each (block_step kw) s2 lines = Ok s2'
              /\ stored_over before s1' s2'.
Proof.
  induction lines as [|l lines IH]; intros s1 s2 s1' Hrel Hrun.
  - injection Hrun as <-. now exists s2.
  - cbn [for_each] in *.
    destruct (block_step kw s1 l) as [t1|] eqn:E; [|discriminate].
    destruct (block_step_over kw before s1 s2 t1 l Hrel E) as (t2 & E2 & Hrel').
    rewrite E2. cbn [bind] in *. now apply (IH t1).
Qed.

(** X7.  When the scan of the text [a] ends outside a block, the scan of [a]
    followed by a newline and the text [b] has, under each name, what the
    scan of [b] has for it, and otherwise what the scan of [a] has: within
    one document a later block replaces an earlier block of its name. *)
Theorem later_text_overrides (k : kind) (a b : str) (st : scanner) :
  run k (split_nl a) = Ok st ->
  in_block st = false ->
  exists da db d,
    extract k a = Ok da
    /\ extract k b = Ok db
    /\ extract k (a ++ newline :: b) = Ok d
    /\ forall n, dict_get n d
                 = match dict_get n db with
                   | Some v => Some v
                   | None => dict_get n da
                   end.
Proof.
  intros Hrun Hidle. pose proof (keyword_ok_kind k) as Hkw.
  rewrite run_scan in Hrun. rewrite !extract_extract_blocks.
  unfold extract_blocks. rewrite split_nl_app. unfold scan in *.
  rewrite for_each_app, Hrun. cbn [bind].
  destruct (scan_invariant (keyword k) Hkw (split_nl a)) as (st0 & Hst0 & Hinv).
  unfold scan in Hst0. rewrite Hrun in Hst0. injection Hst0 as <-.
  unfold scan_inv in Hinv. rewrite Hidle in Hinv. destruct Hinv as [Hnone Hempty].
  destruct (scan_invariant (keyword k) Hkw (split_nl a ++ split_nl b))
    as (s1 & Hs1 & _).
  unfold scan in Hs1. rewrite for_each_app, Hrun in Hs1. cbn [bind] in Hs1.
  assert (Hrel : stored_over (blocks st) st scanner_init).
  { unfold stored_over. rewrite Hnone, Hempty, Hidle. cbn.
    repeat split; try reflexivity. intros H. discriminate. }
  destruct (for_each_over (keyword k) (blocks st) (split_nl b) st scanner_init
              s1 Hrel Hs1) as (s2 & Hs2 & Hrel').
  rewrite Hs1, Hs2. cbn [bind].
  exists (store_current st), (store_current s2), (store_current s1).
  repeat split.
  assert (Hda : store_current st = blocks st)
    by (unfold store_current; now rewrite Hnone).
  rewrite Hda. now apply store_current_over.
Qed.

Lemma later_text_overrides_witness :
  exists da db d,
    extract Model (join_nl [lit "model A {"; lit " x"; lit "}"]) = Ok da
    /\ extract Model (join_nl [lit "model A {"; lit " y"; lit "}"]) = Ok db
    /\ extract Model (join_nl [lit "model A {"; lit " x"; lit "}"]
                      ++ newline :: join_nl [lit "model A {"; lit " y"; lit "}"])
       = Ok d
    /\ forall n, dict_get n d
                 = match dict_get n db with
                   | Some v => Some v
                   | None => dict_get n da
                   end.
Proof.
  apply (later_text_overrides Model _ _
           {| blocks := [(lit "A", join_nl [lit "model A {"; lit " x"; lit "}"])];
              current_name := None; current_content := [];
              in_block := false; brace_count := 0 |});
    reflexivity.
Defined.

(** ** Scanning the text written *)

Lemma split_nl_join (xs : list str) :
  xs <> [] -> split_nl (join_nl xs) = flat_map split_nl xs.
Proof.
  induction xs as [|x xs IH]; [contradiction|]. intros _.
  destruct xs as [|x' xs].
  - cbn. now rewrite app_nil_r.
  - rewrite join_nl_cons, split_nl_app, IH by discriminate. reflexivity.
Qed.

Lemma consolidated_lines (hd : str) (enums models : dict) :
  split_nl (join_nl (consolidate hd enums models))
  = split_nl hd ++ enums_banner
    ++ section_lines enums (sorted (dict_keys enums))
    ++ models_banner
    ++ section_lines models (sorted (dict_keys models)).
Proof.
  assert (Hsec : forall d names,
            flat_map split_nl
              (flat_map (fun name => [dict_item d name; []]) names)
            = section_lines d names).
  { intros d names. unfold section_lines.
    induction names as [|n names IH]; [reflexivity|].
    cbn [flat_map app]. rewrite IH, <- app_assoc. reflexivity. }
  rewrite split_nl_join by discriminate. unfold consolidate.
  rewrite !flat_map_app, !Hsec.
  assert (Hr : split_nl (lit rule) = [lit rule])
    by (apply split_nl_line; now apply no_nl_check).
  cbn [flat_map]. rewrite !app_nil_r.
  change (split_nl (newline :: lit rule)) with ([] :: split_nl (lit rule)).
  replace (split_nl (lit rule ++ [newline])) with [lit rule; []]
    by (rewrite split_nl_app, Hr; reflexivity).
  rewrite Hr.
  replace (split_nl (lit "// ENUMS")) with [lit "// ENUMS"] by reflexivity.
  replace (split_nl (lit "// MODELS")) with [lit "// MODELS"] by reflexivity.
  rewrite <- !app_assoc. reflexivity.
Qed.

Lemma opens_one_kind (k k' : kind) (line : str) :
  kind_eqb k k' = false -> opens (keyword k') line = true ->
  opens (keyword k) line = false.
Proof.
  intros Hk Ho. unfold opens in *.
  destruct (startswith (strip line) (keyword k)) eqn:E; [|reflexivity].
  apply startswith_app in Ho as [r Hr]. apply startswith_app in E as [r' Hr'].
  rewrite Hr in Hr'. destruct k, k'; discriminate.
Qed.

Lemma starts_block_opens (k : kind) (line : str) :
  starts_block line = false -> opens (keyword k) line = false.
Proof.
  unfold starts_block. intros H. apply orb_false_iff in H as [H1 H2].
  now destruct k.
Qed.

Section ScanWritten.

Variable k : kind.

Lemma scan_skips (lines : list str) (b : dict) :
  Forall (fun l => opens (keyword k) l = false) lines ->
  for_each (block_step (keyword k)) (idle b) lines = Ok (idle b).
Proof.
  induction 1 as [|l lines Hl _ IH]; [reflexivity|].
  cbn [for_each]. rewrite step_outside by (assumption || reflexivity).
  exact IH.
Qed.

Lemma scan_closes (rest : list str) :
  forall b n c depth,
  closes_at_end depth rest = true ->
  for_each (block_step (keyword k))
    {| blocks := b; current_name := Some n; current_content := c;
       in_block := true; brace_count := depth |} rest
  = Ok (idle (dict_set n (join_nl (c ++ rest)) b)).
Proof.
  induction rest as [|l ls IH]; intros b n c depth Hc; [discriminate|].
  cbn [closes_at_end] in Hc. apply andb_true_iff in Hc as [Hl Hc].
  apply negb_true_iff in Hl.
  cbn [for_each].
  rewrite step_inside by (apply starts_block_opens; assumption) || reflexivity.
  cbn [brace_count current_content blocks current_name].
  destruct ls as [|l' ls].
  - rewrite Hc. cbn [bind for_each]. apply Z.eqb_eq in Hc. unfold idle.
    unfold store_closed. cbn [current_name blocks]. now rewrite Hc.
  - apply andb_true_iff in Hc as [Hz Hc]. apply negb_true_iff in Hz.
    rewrite Hz. cbn [bind]. rewrite IH by assumption.
    now rewrite <- app_assoc.
Qed.

(** A well-formed block of the kind, read from outside a block, is stored
    whole under its name. *)
Lemma scan_block (b : dict) (n v : str) :
  well_formed_block k n v = true ->
  for_each (block_step (keyword k)) (idle b) (split_nl v)
  = Ok (idle (dict_set n v b)).
Proof.
  unfold well_formed_block. intros H.
  pose proof (join_split v) as Hj.
  destruct (split_nl v) as [|o rest]; [discriminate|].
  apply andb_true_iff in H as [H Hc]. apply andb_true_iff in H as [Ho Hn].
  destruct (block_name o) as [n'|] eqn:En; [|discriminate].
  apply str_eqb_eq in Hn. subst n'.
  cbn [for_each].
  destruct (step_open (keyword k) (keyword_ok_kind k) (idle b) o Ho)
    as (n' & Hn' & _ & ->).
  assert (n' = n) as -> by congruence.
  cbn [bind]. change (store_current (idle b)) with b.
  rewrite scan_closes by assumption. cbn [app]. now rewrite Hj.
Qed.

(** The lines of a well-formed block of the other kind start no block of
    this kind. *)
Lemma other_block_lines (k' : kind) (n v : str) :
  kind_eqb k k' = false -> well_formed_block k' n v = true ->
  Forall (fun l => opens (keyword k) l = false) (split_nl v).
Proof.
  unfold well_formed_block. intros Hk H.
  destruct (split_nl v) as [|o rest]; [discriminate|].
  apply andb_true_iff in H as [H Hc]. apply andb_true_iff in H as [Ho _].
  constructor; [now apply (opens_one_kind k k')|].
  clear Ho. revert Hc. generalize (brace_delta o).
  induction rest as [|l ls IH]; intros depth Hc; [constructor|].
  cbn [closes_at_end] in Hc. apply andb_true_iff in Hc as [Hl Hc].
  apply negb_true_iff in Hl. constructor; [now apply starts_block_opens|].
  destruct ls as [|l' ls]; [constructor|].
  apply andb_true_iff in Hc as [_ Hc]. now apply (IH _ Hc).
Qed.

Lemma well_formed_item (k' : kind) (d : dict) (n : str) :
  well_formed k' d = true -> In n (dict_keys d) ->
  well_formed_block k' n (dict_item d n) = true.
Proof.
  intros Hwf Hin. apply dict_keys_get in Hin as [v Hv].
  unfold dict_item. rewrite Hv. apply dict_get_In in Hv.
  unfold well_formed in Hwf. rewrite forallb_forall in Hwf.
  apply (Hwf _ Hv).
Qed.

Lemma scan_own_section (d : dict) (names : list str) :
  well_formed k d = true ->
  (forall n, In n names -> In n (dict_keys d)) ->
  forall b,
  for_each (block_step (keyword k)) (idle b) (section_lines d names)
  = Ok (idle (fold_left (fun b' n => dict_set n (dict_item d n) b') names b)).
Proof.
  intros Hwf. induction names as [|n names IH]; intros Hin b; [reflexivity|].
  cbn [section_lines flat_map fold_left]. fold (section_lines d names).
  rewrite <- app_assoc, for_each_app.
  rewrite (scan_block b n)
    by (apply well_formed_item; [assumption | apply Hin; now left]).
  cbn [bind app for_each].
  rewrite step_outside by (reflexivity || now destruct k). cbn [bind].
  apply IH. intros n' Hn'. apply Hin. now right.
Qed.

Lemma scan_other_section (k' : kind) (d : dict) (names : list str) (b : dict) :
  kind_eqb k k' = false ->
  well_formed k' d = true ->
  (forall n, In n names -> In n (dict_keys d)) ->
  for_each (block_step (keyword k)) (idle b) (section_lines d names)
  = Ok (idle b).
Proof.
  intros Hk Hwf Hin. apply scan_skips. unfold section_lines.
  apply Forall_flat_map. apply Forall_forall. intros n Hn.
  apply Forall_app. split; [|repeat constructor; now destruct k].
  apply (other_block_lines k' n); [assumption|].
  apply well_formed_item; [assumption | now apply Hin].
Qed.

End ScanWritten.

Lemma fold_set_get (f : str -> str) (names : list str) :
  forall b n,
  dict_get n (fold_left (fun b' m => dict_set m (f m) b') names b)
  = if in_dec (list_eq_dec ascii_dec) n names then Some (f n)
    else dict_get n b.
Proof.
  induction names as [|m names IH]; intros b n; [reflexivity|].
  cbn [fold_left]. rewrite IH.
  destruct (in_dec (list_eq_dec ascii_dec) n names) as [Hin | Hnin];
    destruct (in_dec (list_eq_dec ascii_dec) n (m :: names)) as [Hin' | Hnin'];
    try reflexivity.
  - exfalso. apply Hnin'. now right.
  - destruct Hin' as [-> | Hin']; [apply dict_get_set_same | contradiction].
  - apply dict_get_set_other. intros ->. apply Hnin'. now left.
Qed.

Lemma section_get (d : dict) (n : str) :
  dict_get n (fold_left (fun b' m => dict_set m (dict_item d m) b')
                (sorted (dict_keys d)) [])
  = dict_get n d.
Proof.
  rewrite fold_set_get.
  destruct (in_dec (list_eq_dec ascii_dec) n (sorted (dict_keys d)))
    as [Hin | Hnin].
  - apply (Permutation_in _ (sorted_perm _)) in Hin.
    apply dict_keys_get in Hin as [v Hv]. unfold dict_item. now rewrite Hv.
  - cbn. destruct (dict_get n d) as [v|] eqn:E; [|reflexivity].
    exfalso. apply Hnin. apply (Permutation_in _ (Permutation_sym (sorted_perm _))).
    apply dict_keys_get. now exists v.
Qed.

Lemma sorted_keys_in (d : dict) (n : str) :
  In n (sorted (dict_keys d)) -> In n (dict_keys d).
Proof. apply Permutation_in, sorted_perm. Qed.

(** The scan of a text written from well-formed blocks gives the blocks of
    its kind back. *)
Lemma extract_written (k : kind) (hd : str) (enums models : dict) :
  Forall (fun l => starts_block l = false) (split_nl hd) ->
  well_formed Enum enums = true ->
  well_formed Model models = true ->
  exists d,
    extract k (join_nl (consolidate hd enums models)) = Ok d
    /\ forall n, dict_get n d
                 = dict_get n (match k with Model => models | Enum => enums end).
Proof.
  intros Hhd He Hm.
  rewrite extract_extract_blocks. unfold extract_blocks, scan.
  rewrite consolidated_lines. change scanner_init with (idle []).
  rewrite for_each_app, scan_skips
    by (eapply Forall_impl; [|exact Hhd]; intros l; apply starts_block_opens).
  cbn [bind].
  rewrite for_each_app, scan_skips by (destruct k; repeat constructor).
  cbn [bind]. rewrite for_each_app.
  destruct k.
  - rewrite (scan_other_section Model Enum) by
        (reflexivity || assumption || apply sorted_keys_in).
    cbn [bind].
    rewrite for_each_app, scan_skips by repeat constructor. cbn [bind].
    rewrite scan_own_section by (assumption || apply sorted_keys_in).
    cbn [bind]. eexists. split; [reflexivity|].
    intros n. change (store_current (idle ?b)) with b. apply section_get.
  - rewrite scan_own_section by (assumption || apply sorted_keys_in).
    cbn [bind].
    rewrite for_each_app, scan_skips by repeat constructor. cbn [bind].
    rewrite (scan_other_section Enum Model) by
        (reflexivity || assumption || apply sorted_keys_in).
    cbn [bind]. eexists. split; [reflexivity|].
    intros n. change (store_current (idle ?b)) with b. apply section_get.
Qed.

(** X13.  Merging an output again keeps its blocks when they are well formed:
    if every block of both registries is read by the scanner from its
    first line to its last and closed there, then the merge of the text
    written, as the only document, has the same content under every name,
    and writes the same two sections after its own header. *)
Theorem remerge_keeps_well_formed_blocks (main_content : str)
    (additional_schemas : list (str * option str)) (m : merged) :
  merge_schemas main_content additional_schemas = Ok m ->
  well_formed Enum (enums_out m) = true ->
  well_formed Model (models_out m) = true ->
  exists m2,
    merge_schemas (written m) [] = Ok m2
    /\ (forall k n, dict_get n (registry k m2) = dict_get n (registry k m))
    /\ written m = join_nl (consolidate (header m) (enums_out m) (models_out m))
    /\ written m2
       = join_nl (consolidate (header m2) (enums_out m) (models_out m)).
Proof.
  intros Hmerge He Hm.
  destruct (merge_schemas_runs main_content additional_schemas)
    as (models0 & enums0 & ms & L & _ & _ & _ & _ & _ & _ & Hnd & E).
  rewrite E in Hmerge. injection Hmerge as <-.
  cbn [written header enums_out models_out] in *.
  set (hd := join_nl (header_lines (split_nl main_content))) in *.
  set (T := join_nl (consolidate hd (all_enums ms) (all_models ms))).
  assert (Hhd : Forall (fun l => starts_block l = false) (split_nl hd))
    by apply header_text_lines.
  destruct (merge_schemas_runs T [])
    as (models1 & enums1 & ms2 & L2 & Hm1 & He1 & Hloop & _ & _ & _ & Hnd2 & E2).
  cbn [for_each] in Hloop. injection Hloop as <-.
  cbn [all_models all_enums] in *.
  destruct (extract_written Model hd _ _ Hhd He Hm) as (dm & Hdm & Hgm).
  destruct (extract_written Enum hd _ _ Hhd He Hm) as (de & Hde & Hge).
  fold T in Hdm, Hde.
  assert (dm = models1) as -> by congruence.
  assert (de = enums1) as -> by congruence.
  eexists. split; [exact E2|].
  cbn [written header enums_out models_out].
  split; [|split; [reflexivity|]].
  - intros k n. destruct k; [apply Hgm | apply Hge].
  - f_equal. apply consolidate_lookup; try assumption.
    + apply (Hnd2 Enum).
    + apply (Hnd Enum).
    + apply (Hnd2 Model).
    + apply (Hnd Model).
Qed.

Lemma remerge_keeps_well_formed_blocks_witness :
  exists m2,
    merge_schemas
      (written
         {| header := lit "generator client {}";
            models_out := [(lit "A", join_nl [lit "model A {"; lit " id Int"; lit "}"])];
            enums_out := [(lit "R", join_nl [lit "enum R {"; lit " X"; lit "}"])];
            written :=
              join_nl (consolidate (lit "generator client {}")
                         [(lit "R", join_nl [lit "enum R {"; lit " X"; lit "}"])]
                         [(lit "A", join_nl [lit "model A {"; lit " id Int"; lit "}"])]);
            report := [MainSummary 1 0; FileSummary (lit "e.prisma") 0 1;
                       Added Enum (lit "R"); Written; Total 1 1] |}) [] = Ok m2
    /\ (forall k n,
          dict_get n (registry k m2)
          = dict_get n
              (registry k
                 {| header := lit "generator client {}";
                    models_out := [(lit "A", join_nl [lit "model A {"; lit " id Int"; lit "}"])];
                    enums_out := [(lit "R", join_nl [lit "enum R {"; lit " X"; lit "}"])];
                    written :=
                      join_nl (consolidate (lit "generator client {}")
                                 [(lit "R", join_nl [lit "enum R {"; lit " X"; lit "}"])]
                                 [(lit "A", join_nl [lit "model A {"; lit " id Int"; lit "}"])]);
                    report := [MainSummary 1 0; FileSummary (lit "e.prisma") 0 1;
                               Added Enum (lit "R"); Written; Total 1 1] |}))
    /\ join_nl (consolidate (lit "generator client {}")
                  [(lit "R", join_nl [lit "enum R {"; lit " X"; lit "}"])]
                  [(lit "A", join_nl [lit "model A {"; lit " id Int"; lit "}"])])
       = join_nl (consolidate (lit "generator client {}")
                    [(lit "R", join_nl [lit "enum R {"; lit " X"; lit "}"])]
                    [(lit "A", join_nl [lit "model A {"; lit " id Int"; lit "}"])])
    /\ written m2
       = join_nl (consolidate (header m2)
                    [(lit "R", join_nl [lit "enum R {"; lit " X"; lit "}"])]
                    [(lit "A", join_nl [lit "model A {"; lit " id Int"; lit "}"])]).
Proof.
  apply (remerge_keeps_well_formed_blocks
           (join_nl [lit "generator client {}"; lit "model A {"; lit " id Int"; lit "}"])
           [(lit "e.prisma", Some (join_nl [lit "enum R {"; lit " X"; lit "}"]))]);
    reflexivity.
Defined.

(** X8.  A text that is one well-formed block scans to that block alone, whole
    and under its name. *)
Theorem well_formed_block_scans_to_itself (k : kind) (n v : str) :
  well_formed_block k n v = true ->
  extract k v = Ok [(n, v)].
Proof.
  intros H. rewrite extract_extract_blocks. unfold extract_blocks, scan.
  change scanner_init with (idle []). now rewrite (scan_block k [] n v H).
Qed.

Lemma well_formed_block_scans_to_itself_witness :
  extract Enum (join_nl [lit "enum Role {"; lit "  ADMIN"; lit "  USER"; lit "}"])
  = Ok [(lit "Role",
         join_nl [lit "enum Role {"; lit "  ADMIN"; lit "  USER"; lit "}"])].
Proof.
  apply well_formed_block_scans_to_itself. reflexivity.
Defined.

(** ** The names *)

Lemma split_ws_no_space (s : str) :
  Forall (fun t => Forall (fun c => is_space c = false) t) (split_ws s).
Proof.
  induction s as [|c s IH]; cbn [split_ws]; [constructor|].
  destruct (is_space c) eqn:Hc; [exact IH|].
  destruct s as [|d s']; [repeat constructor; assumption|].
  destruct (is_space d) eqn:Hd.
  - constructor; [repeat constructor; assumption | exact IH].
  - destruct (split_ws (d :: s')) as [|t ts].
    + repeat constructor; assumption.
    + inversion IH; subst. constructor; [now constructor | assumption].
Qed.

(** X6.  Every name in the result of a scan is a token: it is not empty and
    has no whitespace in it. *)
Theorem names_are_tokens (k : kind) (content : str) :
  exists d,
    extract k content = Ok d
    /\ forall n, In n (dict_keys d) ->
                 n <> [] /\ Forall (fun c => is_space c = false) n.
Proof.
  destruct (extract_names k content) as (d & Hd & _ & Hkeys).
  exists d. split; [assumption|]. intros n Hn.
  apply Hkeys in Hn as (o & _ & _ & Hname).
  unfold block_name in Hname. apply nth_error_In in Hname.
  pose proof (split_ws_tokens (strip o)) as H1.
  pose proof (split_ws_no_space (strip o)) as H2.
  rewrite Forall_forall in H1, H2. split; [now apply H1 | now apply H2].
Qed.

(** ** A block that no earlier document has *)

Lemma add_blocks_adds (k : kind) (items : dict) :
  forall registry0 n c,
  dict_get n items = Some c -> dict_mem n registry0 = false ->
  In (Added k n) (snd (add_blocks k items registry0)).
Proof.
  induction items as [|[n' c'] items IH]; intros registry0 n c Hget Hm;
    [discriminate|].
  cbn [dict_get] in Hget. cbn [add_blocks].
  destruct (str_eqb n n') eqn:E.
  - apply str_eqb_eq in E. subst n'. rewrite Hm. cbn [negb].
    destruct (add_blocks k items (dict_set n c' registry0)). now left.
  - apply str_eqb_neq in E. destruct (dict_mem n' registry0) eqn:Hm'; cbn [negb].
    + specialize (IH registry0 n c Hget Hm).
      destruct (add_blocks k items registry0). now right.
    + assert (Hm2 : dict_mem n (dict_set n' c' registry0) = false).
      { unfold dict_mem in *. now rewrite dict_get_set_other. }
      specialize (IH _ n c Hget Hm2).
      destruct (add_blocks k items (dict_set n' c' registry0)). now right.
Qed.

(** X10.  When the scan of an additional file gives [Y] for a name [A] that
    neither the main schema nor an earlier additional file has, the
    registry ends with [Y] under [A], [Y] is in the text written, and the
    part of the report of that file has the message that [A] was added. *)
Theorem new_block_is_added (k : kind) (main_content : str)
    (additional_schemas before after : list (str * option str))
    (schema_path content A Y : str) (dc : dict) :
  additional_schemas = before ++ (schema_path, Some content) :: after ->
  first_definition k A (main_content :: present before) = None ->
  extract k content = Ok dc -> dict_get A dc = Some Y ->
  exists m,
    merge_schemas main_content additional_schemas = Ok m
    /\ dict_get A (registry k m) = Some Y
    /\ (exists a b, written m = a ++ Y ++ b)
    /\ (exists l1 models enums evs l2,
          report m = l1 ++ FileSummary schema_path models enums :: evs ++ l2
          /\ length (filter is_file_line l1) = length before
          /\ Forall (fun e => is_file_line e = false) evs
          /\ In (Added k A) evs).
Proof.
  intros Hfiles Hnone Hdc HY. subst additional_schemas.
  destruct (merge_schemas_runs main_content
              (before ++ (schema_path, Some content) :: after))
    as (models0 & enums0 & ms & L & Hm0 & He0 & Hloop & _ & _ & Hg & _ & ->).
  set (init := {| all_models := models0; all_enums := enums0;
                  printed := [MainSummary (length models0) (length enums0)] |})
    in *.
  destruct (merge_loop before init) as (ms1 & L1 & H1 & Hp1 & Hc1 & Hg1 & _).
  destruct (merge_file_present ms1 schema_path content)
    as (models & enums & Hm & He & H2).
  set (ms2 := {| all_models := fst (add_blocks Model models (all_models ms1));
                 all_enums := fst (add_blocks Enum enums (all_enums ms1));
                 printed := printed ms1
                   ++ FileSummary schema_path (length models) (length enums)
                      :: snd (add_blocks Model models (all_models ms1))
                      ++ snd (add_blocks Enum enums (all_enums ms1)) |}) in *.
  destruct (merge_loop after ms2) as (ms3 & L3 & H3 & Hp3 & _ & _ & _).
  assert (ms = ms3) as ->.
  { rewrite for_each_app, H1 in Hloop. cbn [bind for_each] in Hloop.
    rewrite H2 in Hloop. cbn [bind] in Hloop. congruence. }
  assert (G1 : dict_get A (registry_of k ms1) = None).
  { rewrite Hg1. cbn [first_definition] in Hnone.
    assert (E0 : extract k main_content
                 = Ok (registry_of k init)) by (destruct k; assumption).
    rewrite E0 in Hnone.
    destruct (dict_get A (registry_of k init)); [discriminate | exact Hnone]. }
  assert (G3 : dict_get A (registry_of k ms3) = Some Y).
  { rewrite Hg, present_app, present_cons. unfold present at 2.
    cbn [flat_map snd app].
    change (main_content :: present before ++ content :: present after)
      with ((main_content :: present before) ++ content :: present after).
    rewrite first_definition_app, Hnone. cbn [first_definition].
    now rewrite Hdc, HY. }
  assert (Hadd : In (Added k A)
                    (snd (add_blocks Model models (all_models ms1))
                     ++ snd (add_blocks Enum enums (all_enums ms1)))).
  { apply in_or_app.
    assert (Hmem : dict_mem A (registry_of k ms1) = false)
      by (unfold dict_mem; now rewrite G1).
    destruct k; cbn [registry_of] in Hmem; [left | right].
    - apply (add_blocks_adds Model models _ A Y); [congruence | assumption].
    - apply (add_blocks_adds Enum enums _ A Y); [congruence | assumption]. }
  eexists. split; [reflexivity|].
  assert (Hreg : forall h w r,
            registry k {| header := h; models_out := all_models ms3;
                          enums_out := all_enums ms3; written := w; report := r |}
            = registry_of k ms3) by (intros; now destruct k).
  rewrite Hreg. split; [assumption|].
  cbn [written report]. split.
  - apply join_nl_In.
    assert (Hitem : dict_item (registry_of k ms3) A = Y)
      by (unfold dict_item; now rewrite G3).
    assert (Hkey : In A (dict_keys (registry_of k ms3)))
      by (apply dict_keys_get; now exists Y).
    rewrite <- Hitem.
    destruct k; [apply (consolidate_In _ _ _ Model) | apply (consolidate_In _ _ _ Enum)];
      exact Hkey.
  - exists (printed ms1), (length models), (length enums),
      (snd (add_blocks Model models (all_models ms1))
       ++ snd (add_blocks Enum enums (all_enums ms1))),
      (L3 ++ [Written; Total (length (all_models ms3)) (length (all_enums ms3))]).
    split; [|split; [|split]].
    + rewrite Hp3. cbn [ms2 printed].
      rewrite <- ?app_assoc. cbn [app]. rewrite <- ?app_assoc. reflexivity.
    + rewrite Hp1. cbn [init printed app filter is_file_line]. exact Hc1.
    + apply Forall_app. split; apply add_blocks_log.
    + exact Hadd.
Qed.

Lemma new_block_is_added_witness :
  exists m,
    merge_schemas (join_nl [lit "model A {"; lit " x"; lit "}"])
      [(lit "missing.prisma", None);
       (lit "extra.prisma", Some (join_nl [lit "model B {"; lit " y"; lit "}"]))]
    = Ok m
    /\ dict_get (lit "B") (registry Model m)
       = Some (join_nl [lit "model B {"; lit " y"; lit "}"])
    /\ (exists a b,
          written m = a ++ join_nl [lit "model B {"; lit " y"; lit "}"] ++ b)
    /\ (exists l1 models enums evs l2,
          report m
          = l1 ++ FileSummary (lit "extra.prisma") models enums :: evs ++ l2
          /\ length (filter is_file_line l1)
             = length [(lit "missing.prisma", @None str)]
          /\ Forall (fun e => is_file_line e = false) evs
          /\ In (Added Model (lit "B")) evs).
Proof.
  apply (new_block_is_added Model _ _ [(lit "missing.prisma", None)] []
           (lit "extra.prisma") (join_nl [lit "model B {"; lit " y"; lit "}"])
           (lit "B") (join_nl [lit "model B {"; lit " y"; lit "}"])
           [(lit "B", join_nl [lit "model B {"; lit " y"; lit "}"])]);
    reflexivity.
Defined.

(** ** A block closed by the next opening line, in the result *)

Lemma store_current_other (st : scanner) (n : str) :
  current_name st <> Some n ->
  dict_get n (store_current st) = dict_get n (blocks st).
Proof.
  intros Hne. unfold store_current.
  destruct (current_name st) as [[|c m]|]; try reflexivity.
  destruct (current_content st); [reflexivity|].
  apply dict_get_set_other. congruence.
Qed.

(** An entry stays as it is while no block of its name is read. *)
Lemma block_step_keeps (kw : str) (n v : str) (st st' : scanner) (line : str) :
  (opens kw line = true -> block_name line <> Some n) ->
  dict_get n (blocks st) = Some v -> current_name st <> Some n ->
  block_step kw st line = Ok st' ->
  dict_get n (blocks st') = Some v /\ current_name st' <> Some n.
Proof.
  intros Hline Hget Hcur Hstep. unfold block_step in Hstep.
  unfold opens, block_name in Hline.
  destruct (startswith (strip line) kw).
  - destruct (nth_error (split_ws (strip line)) 1) as [name|] eqn:E;
      [|discriminate].
    injection Hstep as <-. cbn [blocks current_name]. split.
    + now rewrite store_current_other.
    + now apply Hline.
  - destruct (in_block st); [|now injection Hstep as <-].
    destruct (brace_count st + brace_delta line =? 0);
      injection Hstep as <-; cbn [blocks current_name].
    + split; [|discriminate]. unfold store_closed.
      destruct (current_name st) as [m|]; [|assumption].
      rewrite dict_get_set_other; [assumption | congruence].
    + now split.
Qed.

Lemma for_each_keeps (kw : str) (n v : str) (lines : list str) :
  Forall (fun l => opens kw l = true -> block_name l <> Some n) lines ->
  forall st st',
  dict_get n (blocks st) = Some v -> current_name st <> Some n ->
  for_each (block_step kw) st lines = Ok st' ->
  dict_get n (blocks st') = Some v /\ current_name st' <> Some n.
Proof.
  induction 1 as [|l lines Hl _ IH]; intros st st' Hget Hcur Hrun.
  - injection Hrun as <-. now split.
  - cbn [for_each] in Hrun.
    destruct (block_step kw st l) as [st1|] eqn:E; [|discriminate].
    cbn [bind] in Hrun.
    destruct (block_step_keeps kw n v st st1 l Hl Hget Hcur E) as [Hget1 Hcur1].
    now apply (IH st1).
Qed.

(** C9, as the code has it.  When a line [o'] starts a block while the
    block started by the line [o] is open, the scanner stores under the
    name of [o] the lines accumulated so far, which are all the lines from
    [o] up to the line before [o'], and begins the new block with the line
    [o'] alone.  The stored block is in the result of the scan, so that
    none of these lines is lost, when neither [o'] nor a later line starts
    a block of the same name. *)
Theorem block_closed_by_next_opening_is_kept (k : kind) (content : str)
    (pre : list str) (o : str) (mid : list str) (o' : str) (rest : list str)
    (n : str) :
  split_nl content = pre ++ o :: mid ++ o' :: rest ->
  opens (keyword k) o = true ->
  block_name o = Some n ->
  Forall (fun l => opens (keyword k) l = false) mid ->
  (forall j, (1 <= j <= length mid)%nat ->
             depth_of (o :: firstn j mid) <> 0) ->
  opens (keyword k) o' = true ->
  Forall (fun l => opens (keyword k) l = true -> block_name l <> Some n)
         (o' :: rest) ->
  exists st n' d,
    run k (pre ++ o :: mid ++ [o']) = Ok st
    /\ block_name o' = Some n'
    /\ dict_get n (blocks st) = Some (join_nl (o :: mid))
    /\ current_name st = Some n'
    /\ current_content st = [o']
    /\ in_block st = true
    /\ brace_count st = brace_delta o'
    /\ extract k content = Ok d
    /\ dict_get n d = Some (join_nl (o :: mid)).
Proof.
  intros Hsplit Ho Hn Hmid Hrun Ho' Hlater.
  pose proof (keyword_ok_kind k) as Hkw.
  inversion Hlater as [|? ? Hfirst Hrest]; subst.
  destruct (scan_invariant (keyword k) Hkw pre) as (st0 & Hst0 & _).
  destruct (step_open (keyword k) Hkw st0 o Ho) as (n0 & Hn0 & Hne & E1).
  assert (n0 = n) as -> by congruence.
  destruct (step_open (keyword k) Hkw
              {| blocks := store_current st0; current_name := Some n;
                 current_content := [o] ++ mid; in_block := true;
                 brace_count := brace_delta o + depth_of mid |} o' Ho')
    as (n' & Hn' & _ & E3).
  assert (Hprefix : scan (keyword k) (pre ++ o :: mid ++ [o'])
                    = Ok {| blocks := dict_set n (join_nl (o :: mid))
                                        (store_current st0);
                            current_name := Some n';
                            current_content := [o'];
                            in_block := true;
                            brace_count := brace_delta o' |}).
  { unfold scan in *. rewrite for_each_app, Hst0. cbn [bind for_each].
    rewrite E1. cbn [bind]. rewrite for_each_app.
    rewrite (scan_stays_open (keyword k) mid _ n);
      [| reflexivity | reflexivity | assumption | exact Hrun].
    cbn [bind for_each blocks current_content brace_count].
    rewrite E3. cbn [bind]. f_equal. f_equal.
    apply store_current_open; try reflexivity; try assumption. discriminate. }
  destruct (scan_invariant (keyword k) Hkw (split_nl content))
    as (st4 & Hst4 & _).
  assert (Hwhole : for_each (block_step (keyword k))
                     {| blocks := dict_set n (join_nl (o :: mid))
                                    (store_current st0);
                        current_name := Some n';
                        current_content := [o'];
                        in_block := true;
                        brace_count := brace_delta o' |} rest = Ok st4).
  { unfold scan in *. rewrite Hsplit in Hst4.
    replace (pre ++ o :: mid ++ o' :: rest)
      with ((pre ++ o :: mid ++ [o']) ++ rest) in Hst4
      by (rewrite <- !app_assoc; cbn [app]; rewrite <- app_assoc; reflexivity).
    rewrite for_each_app, Hprefix in Hst4. exact Hst4. }
  pose proof (for_each_keeps (keyword k) n (join_nl (o :: mid)) rest Hrest
                {| blocks := dict_set n (join_nl (o :: mid)) (store_current st0);
                   current_name := Some n';
                   current_content := [o'];
                   in_block := true;
                   brace_count := brace_delta o' |} st4) as Hkeep.
  cbn [blocks current_name] in Hkeep.
  destruct (Hkeep (dict_get_set_same _ _ _)
                  (fun H => Hfirst Ho' (eq_trans Hn' H)) Hwhole)
    as [Hget4 Hcur4].
  eexists. exists n'. eexists.
  rewrite run_scan, Hprefix. split; [reflexivity|].
  split; [assumption|]. cbn [blocks current_name current_content in_block brace_count].
  split; [apply dict_get_set_same|].
  repeat (split; [reflexivity|]).
  rewrite extract_extract_blocks. unfold extract_blocks. rewrite Hst4.
  cbn [bind]. split; [reflexivity|].
  now rewrite store_current_other.
Qed.

Lemma block_closed_by_next_opening_is_kept_witness :
  exists st n' d,
    run Model ([] ++ lit "model A {" :: [lit " x"] ++ [lit "model B {"]) = Ok st
    /\ block_name (lit "model B {") = Some n'
    /\ dict_get (lit "A") (blocks st)
       = Some (join_nl (lit "model A {" :: [lit " x"]))
    /\ current_name st = Some n'
    /\ current_content st = [lit "model B {"]
    /\ in_block st = true
    /\ brace_count st = brace_delta (lit "model B {")
    /\ extract Model
         (join_nl [lit "model A {"; lit " x"; lit "model B {"; lit " y"; lit "}"])
       = Ok d
    /\ dict_get (lit "A") d = Some (join_nl (lit "model A {" :: [lit " x"])).
Proof.
  apply (block_closed_by_next_opening_is_kept Model
           (join_nl [lit "model A {"; lit " x"; lit "model B {"; lit " y"; lit "}"])
           [] (lit "model A {") [lit " x"] (lit "model B {")
           [lit " y"; lit "}"] (lit "A")).
  - reflexivity.
  - reflexivity.
  - reflexivity.
  - repeat constructor.
  - intros j Hj. cbn [length] in Hj.
    assert (j = 1%nat) as -> by lia. vm_compute. discriminate.
  - reflexivity.
  - repeat (constructor; [intros H; vm_compute in H |- *; congruence|]).
    constructor.
Defined.

(** C9 fails as stated: the second [model A] line arrives while the first
    block named [A] is open; the lines accumulated so far are stored under
    [A] and then replaced by the second block, so the line [ x] between
    the two opening lines is in no block of the result. *)
Lemma reopened_name_loses_the_lines :
  (exists st, run Model [lit "model A {"; lit " x"] = Ok st
              /\ in_block st = true)
  /\ opens (keyword Model) (lit "model A {") = true
  /\ In (lit " x")
        (split_nl (join_nl [lit "model A {"; lit " x";
                            lit "model A {"; lit " y"; lit "}"]))
  /\ extract Model (join_nl [lit "model A {"; lit " x";
                             lit "model A {"; lit " y"; lit "}"])
     = Ok [(lit "A", join_nl [lit "model A {"; lit " y"; lit "}"])]
  /\ forall n v,
       dict_get n [(lit "A", join_nl [lit "model A {"; lit " y"; lit "}"])]
       = Some v ->
       ~ In (lit " x") (split_nl v).
Proof.
  split; [eexists; split; reflexivity|].
  split; [reflexivity|]. split; [right; now left|]. split; [reflexivity|].
  intros n v H. cbn [dict_get] in H.
  destruct (str_eqb n (lit "A")); [|discriminate].
  injection H as <-. vm_compute.
  intros [H | [H | [H | []]]]; discriminate.
Qed.
